(** * ELSST topic autocomplete service: a shallow embedding

    The repository holds two variants of one FastAPI service:
    - [src/server.py]: the current profile (multilingual store, per-language
      search index, flat result list, single-topic lookup);
    - [src/app/server.py]: the legacy profile (English-only store, ancestor
      expansion, SKG-IF graph with minted identifiers).

    Python values are embedded as the inductive type [Py.value]; a Python
    [str] is a Rocq [string] whose characters are read as code points below
    256, so that [len], slicing, comparison and substring tests agree with
    Python's on such strings.  A raised exception is the [Raise] case of
    [Py.result]. *)

From Stdlib Require Import String Ascii ZArith List Bool Lia.
From stdpp Require Import base option list strings pretty gmap sorting.

Open Scope string_scope.
Open Scope nat_scope.
Open Scope list_scope.

#[local] Set Warnings "-register-all,-clear-no-such-hyp".

(** ** Python strings, values and dictionaries *)
Module Py.

(** *** Strings *)

(** [needle in hay] on two strings. *)
Fixpoint contains (needle hay : string) : bool :=
  String.prefix needle hay ||
  match hay with
  | EmptyString => false
  | String _ rest => contains needle rest
  end.

(** [s.split(sep)] for a one-character separator. *)
Fixpoint split (sep : ascii) (s : string) : list string :=
  match s with
  | EmptyString => [EmptyString]
  | String c rest =>
      if Ascii.eqb c sep then EmptyString :: split sep rest
      else match split sep rest with
           | head :: tail => String c head :: tail
           | [] => [String c EmptyString]
           end
  end.

(** [s.split(sep, 1)]: one cut at the first separator, if there is one. *)
Fixpoint split1 (sep : ascii) (s : string) : list string :=
  match s with
  | EmptyString => [EmptyString]
  | String c rest =>
      if Ascii.eqb c sep then [EmptyString; rest]
      else match split1 sep rest with
           | head :: tail => String c head :: tail
           | [] => [String c EmptyString]
           end
  end.

(** [str.isspace] on a single code point below 256. *)
Definition is_space (c : ascii) : bool :=
  let n := nat_of_ascii c in
  ((9 <=? n) && (n <=? 13)) || ((28 <=? n) && (n <=? 32))
  || (n =? 133) || (n =? 160).

Fixpoint lstrip (s : string) : string :=
  match s with
  | EmptyString => EmptyString
  | String c rest => if is_space c then lstrip rest else s
  end.

Fixpoint rstrip (s : string) : string :=
  match s with
  | EmptyString => EmptyString
  | String c rest =>
      match rstrip rest with
      | EmptyString => if is_space c then EmptyString else String c EmptyString
      | kept => String c kept
      end
  end.

(** [s.strip()]. *)
Definition strip (s : string) : string := rstrip (lstrip s).

(** [c.lower()] on the ASCII letters; the service's theorems take the
    lowering function as a parameter and use this one in examples. *)
Definition lower_ascii_char (c : ascii) : ascii :=
  let n := nat_of_ascii c in
  if (65 <=? n) && (n <=? 90) then ascii_of_nat (n + 32) else c.

Fixpoint lower_ascii (s : string) : string :=
  match s with
  | EmptyString => EmptyString
  | String c rest => String (lower_ascii_char c) (lower_ascii rest)
  end.

Definition newline : ascii := ascii_of_nat 10.

Definition is_az (c : ascii) : bool :=
  let n := nat_of_ascii c in (97 <=? n) && (n <=? 122).

(** [re.match("^[a-z]{2}$", s)] as a boolean.  Python's [$] also matches
    just before a newline that ends the string. *)
Definition re_match_az2 (s : string) : bool :=
  match s with
  | String a (String b rest) =>
      is_az a && is_az b &&
      match rest with
      | EmptyString => true
      | String c EmptyString => Ascii.eqb c newline
      | _ => false
      end
  | _ => false
  end.

(** *** [urllib.parse.quote] with its default [safe='/'] *)

Definition hex_digit (n : nat) : ascii :=
  if n <? 10 then ascii_of_nat (48 + n) else ascii_of_nat (55 + n).

(** ["%XX"] for one byte. *)
Definition percent (byte : nat) : string :=
  String "%" (String (hex_digit (byte / 16)) (String (hex_digit (byte mod 16)) EmptyString)).

Definition always_safe (c : ascii) : bool :=
  let n := nat_of_ascii c in
  ((65 <=? n) && (n <=? 90)) || ((97 <=? n) && (n <=? 122))
  || ((48 <=? n) && (n <=? 57))
  || (n =? 95) || (n =? 46) || (n =? 45) || (n =? 126).

(** The UTF-8 bytes of one code point below 256, in one or two bytes.  The
    code points from 256 on, which take up to four bytes, are outside the
    strings of this development. *)
Definition utf8 (c : ascii) : list nat :=
  let n := nat_of_ascii c in
  if n <? 128 then [n] else [192 + n / 64; 128 + n mod 64].

Definition quote_char (c : ascii) : string :=
  if always_safe c || Ascii.eqb c "/" then String c EmptyString
  else fold_right (fun b acc => percent b +:+ acc) EmptyString (utf8 c).

Fixpoint quote (s : string) : string :=
  match s with
  | EmptyString => EmptyString
  | String c rest => quote_char c +:+ quote rest
  end.

(** *** Exceptions and results *)

Inductive exn : Type :=
  | FileNotFoundError
  | JSONDecodeError
  | UnicodeDecodeError
  | TypeError
  | AttributeError
  | KeyError
  | IndexError
  | ValueError
  | PermissionError
  | IsADirectoryError
  | RecursionError.

Inductive result (A : Type) : Type :=
  | Ok (a : A)
  | Raise (e : exn).
Arguments Ok {A} a.
Arguments Raise {A} e.

#[global] Instance result_ret : MRet result := @Ok.
#[global] Instance result_bind : MBind result :=
  fun A B f m => match m with Ok a => f a | Raise e => Raise e end.

(** A [for] loop whose body may raise, threading an accumulator. *)
Fixpoint for_each {A S : Type} (body : S -> A -> result S) (xs : list A) (s : S)
  : result S :=
  match xs with
  | [] => Ok s
  | x :: rest => s' ← body s x; for_each body rest s'
  end.

(** *** Values *)

(** What [json.load] produces, and what the loaders build from it.  A
    [VDict] keeps its items in insertion order, as a Python [dict] does.
    [VInt] stands for the JSON numbers that are integers. *)
Inductive value : Type :=
  | VNone
  | VBool (b : bool)
  | VInt (z : Z)
  | VStr (s : string)
  | VList (items : list value)
  | VDict (items : list (value * value)).

(** [bool(v)]. *)
Definition truthy (v : value) : bool :=
  match v with
  | VNone => false
  | VBool b => b
  | VInt z => negb (z =? 0)%Z
  | VStr s => negb (String.eqb s EmptyString)
  | VList items => match items with [] => false | _ => true end
  | VDict items => match items with [] => false | _ => true end
  end.

Definition hashable (v : value) : bool :=
  match v with
  | VList _ | VDict _ => false
  | _ => true
  end.

(** Equality of two hashable values as dictionary keys: [True == 1] and
    [False == 0]. *)
Definition key_eqb (a b : value) : bool :=
  match a, b with
  | VNone, VNone => true
  | VStr s, VStr t => String.eqb s t
  | VBool x, VBool y => Bool.eqb x y
  | VInt x, VInt y => (x =? y)%Z
  | VBool x, VInt y | VInt y, VBool x => (Z.b2z x =? y)%Z
  | _, _ => false
  end.

(** [d.get(key)] on the items of a dictionary. *)
Fixpoint lookup (key : value) (items : list (value * value)) : option value :=
  match items with
  | [] => None
  | (k, v) :: rest => if key_eqb k key then Some v else lookup key rest
  end.

(** [d[key] = v] on the items of a dictionary, for a hashable key: an
    existing key keeps its place (and its key object), a new one goes last. *)
Fixpoint assign (key v : value) (items : list (value * value))
  : list (value * value) :=
  match items with
  | [] => [(key, v)]
  | (k, old) :: rest =>
      if key_eqb k key then (k, v) :: rest else (k, old) :: assign key v rest
  end.

(** [d[key] = v], raising on an unhashable key. *)
Definition setitem (key v : value) (items : list (value * value))
  : result (list (value * value)) :=
  if hashable key then Ok (assign key v items) else Raise TypeError.

(** [d.setdefault(key, []).append(v)]. *)
Definition setdefault_append (key v : value) (items : list (value * value))
  : result (list (value * value)) :=
  if hashable key then
    match lookup key items with
    | Some (VList old) => Ok (assign key (VList (old ++ [v])) items)
    | Some _ => Raise AttributeError
    | None => Ok (assign key (VList [v]) items)
    end
  else Raise TypeError.

(** [d.get(name, default)] for a string key. *)
Definition get (name : string) (default : value) (items : list (value * value))
  : value :=
  match lookup (VStr name) items with
  | Some v => v
  | None => default
  end.

(** [name in d] for a string key. *)
Definition has (name : string) (items : list (value * value)) : bool :=
  match lookup (VStr name) items with Some _ => true | None => false end.

(** [v == name] for a string [name]. *)
Definition eq_str (v : value) (name : string) : bool :=
  match v with VStr s => String.eqb s name | _ => false end.

Fixpoint chars (s : string) : list value :=
  match s with
  | EmptyString => []
  | String c rest => VStr (String c EmptyString) :: chars rest
  end.

(** The items a [for] loop (or [list.extend]) draws from [v]. *)
Definition iterate (v : value) : result (list value) :=
  match v with
  | VList items => Ok items
  | VDict items => Ok (map fst items)
  | VStr s => Ok (chars s)
  | _ => Raise TypeError
  end.

(** [name in v] for a string [name]. *)
Definition contains_str (name : string) (v : value) : result bool :=
  match v with
  | VDict items => Ok (has name items)
  | VList items => Ok (existsb (fun x => eq_str x name) items)
  | VStr s => Ok (contains name s)
  | _ => Raise TypeError
  end.

(** [v[name]] for a string [name]. *)
Definition getitem_str (v : value) (name : string) : result value :=
  match v with
  | VDict items =>
      match lookup (VStr name) items with
      | Some x => Ok x
      | None => Raise KeyError
      end
  | _ => Raise TypeError
  end.

(** [v[0]]. *)
Definition getitem0 (v : value) : result value :=
  match v with
  | VList (x :: _) => Ok x
  | VList [] => Raise IndexError
  | VStr (String c _) => Ok (VStr (String c EmptyString))
  | VStr EmptyString => Raise IndexError
  | VDict items =>
      match lookup (VInt 0) items with
      | Some x => Ok x
      | None => Raise KeyError
      end
  | _ => Raise TypeError
  end.

(** [v.get(name, default)]: only a [dict] has the method. *)
Definition method_get (v : value) (name : string) (default : value)
  : result value :=
  match v with
  | VDict items => Ok (get name default items)
  | _ => Raise AttributeError
  end.

(** *** Dictionaries with string keys and values of one type *)

Definition dict (V : Type) : Type := list (string * V).

(** [d.get(key)]. *)
Fixpoint dict_get {V : Type} (key : string) (d : dict V) : option V :=
  match d with
  | [] => None
  | (k, v) :: rest => if String.eqb k key then Some v else dict_get key rest
  end.

(** [d[key] = v]. *)
Fixpoint dict_set {V : Type} (key : string) (v : V) (d : dict V) : dict V :=
  match d with
  | [] => [(key, v)]
  | (k, old) :: rest =>
      if String.eqb k key then (k, v) :: rest else (k, old) :: dict_set key v rest
  end.

(** [d.setdefault(key, []).append(x)]. *)
Definition dict_append {A : Type} (key : string) (x : A) (d : dict (list A))
  : dict (list A) :=
  match dict_get key d with
  | Some old => dict_set key (old ++ [x]) d
  | None => dict_set key [x] d
  end.

(** [bool(v)] for a value that is [None] or a string. *)
Definition truthy_id (v : option string) : bool :=
  match v with
  | None => false
  | Some s => negb (String.eqb s EmptyString)
  end.

(** [sorted(list(ids))] for a set of strings. *)
Definition sorted (ids : gset string) : list string :=
  merge_sort String.le (elements ids).

(** *** What an endpoint answers

    [Rejected] is FastAPI's own answer when a declared parameter constraint
    fails (status 422, the error located at [loc]); [HTTPException] is the
    exception a handler raises; [Success] carries the JSON body; [Uncaught]
    is any other exception leaving the handler (status 500). *)
Inductive response : Type :=
  | Success (body : value)
  | HTTPException (status_code : nat) (detail : value)
  | Rejected (loc : list string)
  | Uncaught (e : exn).

Definition status (r : response) : nat :=
  match r with
  | Success _ => 200
  | HTTPException status_code _ => status_code
  | Rejected _ => 422
  | Uncaught _ => 500
  end.

End Py.

(** ** The JSON-LD loader

    Lines 43-66 of [src/server.py] and lines 39-62 of [src/app/server.py]
    are the same text, and so is the loop header with its two filters; the
    variants differ in what they keep of a concept node. *)
Module Loader.
Import Py.

(** What [open(filepath, 'r', encoding='utf-8')] followed by [json.load(f)]
    comes to: no such file, bytes that are not UTF-8, text that is not JSON,
    any other exception of the two calls, or the value [json.load] returns.
    [Failing e] stands for the exceptions the interpreter raises by itself:
    from [open] a [PermissionError] or an [IsADirectoryError]; from
    [json.load] a [ValueError] on an integer literal with more digits than
    the interpreter converts (4300 unless configured otherwise), which is no
    [JSONDecodeError], and a [RecursionError] on nesting deeper than the
    interpreter's recursion limit.  [Document data] is the case in which
    [json.load] has returned [data]. *)
Inductive source : Type :=
  | Missing
  | Undecodable
  | Malformed
  | Failing (e : exn)
  | Document (data : value).

(** What opening and reading raises, or the parsed document. *)
Definition read (src : source) : result value :=
  match src with
  | Missing => Raise FileNotFoundError
  | Undecodable => Raise UnicodeDecodeError
  | Malformed => Raise JSONDecodeError
  | Failing e => Raise e
  | Document data => Ok data
  end.

Definition SKOS_CONCEPT := "http://www.w3.org/2004/02/skos/core#Concept".
Definition SKOS_PREF_LABEL := "http://www.w3.org/2004/02/skos/core#prefLabel".
Definition SKOS_ALT_LABEL := "http://www.w3.org/2004/02/skos/core#altLabel".
Definition SKOS_BROADER := "http://www.w3.org/2004/02/skos/core#broader".

(** "Navigate into the graph": [None] is the [else] branch. *)
Definition find_graph (data : value) : result (option value) :=
  match data with
  | VDict items =>
      match lookup (VStr "@graph") items with
      | Some graph => Ok (Some graph)
      | None => Ok None
      end
  | VList items =>
      graph ← for_each
        (fun graph item =>
           present ← contains_str "@graph" item;
           if present : bool then
             member ← getitem_str item "@graph";
             more ← iterate member;
             Ok (graph ++ more)
           else Ok graph)
        items [];
      Ok (Some (VList graph))
  | _ => Ok None
  end.

(** The two filters at the head of the loop body; [None] is [continue]. *)
Definition concept_node (concept : value) : result (option (list (value * value))) :=
  match concept with
  | VDict fields =>
      if has "@id" fields then
        let types := get "@type" (VList []) fields in
        let types := match types with VStr _ => VList [types] | _ => types end in
        is_concept ← contains_str SKOS_CONCEPT types;
        if is_concept : bool then Ok (Some fields) else Ok None
      else Ok None
  | _ => Ok None
  end.

(** "Get broader concept". *)
Definition broader_of (fields : list (value * value)) : result value :=
  let broader := get SKOS_BROADER (VList []) fields in
  let broader := match broader with VDict _ => VList [broader] | _ => broader end in
  if truthy broader then
    first ← getitem0 broader;
    method_get first "@id" VNone
  else Ok VNone.

(** The loop over the graph, for a loop body [keep] that builds the record
    of a concept node. *)
Definition process_graph (keep : list (value * value) -> result value)
    (graph : value) : result (list (value * value)) :=
  nodes ← iterate graph;
  for_each
    (fun processed_data concept =>
       node ← concept_node concept;
       match node with
       | None => Ok processed_data
       | Some fields =>
           record ← keep fields;
           setitem (get "@id" VNone fields) record processed_data
       end)
    nodes [].

(** [load_elsst_data], with the lines it prints.  [loaded] is the last
    line, which differs between the variants. *)
Definition load (keep : list (value * value) -> result value)
    (loaded : nat -> string) (filepath : string) (src : source)
  : list string * result value :=
  match read src with
  | Raise FileNotFoundError =>
      ([ "ERROR: Data file not found at '" +:+ filepath +:+ "'.";
         "Please download the ELSST JSON-LD export and place it in the correct path." ],
       Ok (VDict []))
  | Raise JSONDecodeError =>
      ([ "ERROR: Could not decode JSON from '" +:+ filepath
         +:+ "'. The file might be corrupt." ],
       Ok (VDict []))
  | Raise e => ([], Raise e)
  | Ok data =>
      match find_graph data with
      | Raise e => ([], Raise e)
      | Ok None => (["No @graph found in JSON-LD"], Ok (VDict []))
      | Ok (Some graph) =>
          match process_graph keep graph with
          | Raise e => ([], Raise e)
          | Ok processed_data =>
              ([loaded (length processed_data)], Ok (VDict processed_data))
          end
      end
  end.

End Loader.

(** ** The current profile: [src/server.py] *)
Module Server.
Import Py Loader.

Definition SKG_IF_BASE_URL := "https://w3id.org/skg-if/sandbox/cessda-elsst/".
Definition SKG_IF_CONTEXT_URL := "https://w3id.org/skg-if/context/1.0.1/skg-if.json".
Definition DATA_FILE_PATH := "data/elsst_current.jsonld".

(** "Get all prefLabels, keyed by language": one turn of the loop. *)
Definition pref_step (pref_labels : list (value * value)) (label : value)
  : result (list (value * value)) :=
  lang ← method_get label "@language" VNone;
  val ← method_get label "@value" VNone;
  if truthy lang && truthy val then setitem lang val pref_labels
  else Ok pref_labels.

(** "Get all altLabels, keyed by language and grouped in a list". *)
Definition alt_step (alt_labels : list (value * value)) (label : value)
  : result (list (value * value)) :=
  lang ← method_get label "@language" VNone;
  val ← method_get label "@value" VNone;
  if truthy lang && truthy val then setdefault_append lang val alt_labels
  else Ok alt_labels.

(** The record stored for a concept node (lines 81-110). *)
Definition keep (fields : list (value * value)) : result value :=
  let concept_id := get "@id" VNone fields in
  labels ← iterate (get SKOS_PREF_LABEL (VList []) fields);
  pref_labels ← for_each pref_step labels [];
  labels ← iterate (get SKOS_ALT_LABEL (VList []) fields);
  alt_labels ← for_each alt_step labels [];
  broader_id ← broader_of fields;
  Ok (VDict [ (VStr "@id", concept_id);
              (VStr "prefLabels", VDict pref_labels);
              (VStr "altLabels", VDict alt_labels);
              (VStr "broader", broader_id) ]).

Definition load_elsst_data : string -> source -> list string * result value :=
  load keep (fun n => "Loaded " +:+ pretty n +:+ " concepts with multilingual labels").

(** *** The store and the index *)

(** A concept record as the loader stores it, for a well-typed export. *)
Record Concept : Type := {
  cid : string;                           (* '@id' *)
  prefLabels : dict string;
  altLabels : dict (list string);
  broader : option string
}.

(** [ELSST_DATA]: concept id to record, in insertion order. *)
Definition Store : Type := dict Concept.

(** [SEARCH_INDEX]: language to a list of (lowercase label, concept id). *)
Definition Index : Type := dict (list (string * string)).

Section Service.

(** [str.lower]. *)
Variable lower : string -> string.

Definition build_search_index (processed_data : Store) : Index :=
  fold_left
    (fun search_index '(concept_id, data) =>
       let search_index :=
         fold_left
           (fun search_index '(lang, label) =>
              dict_append lang (lower label, concept_id) search_index)
           (prefLabels data) search_index in
       fold_left
         (fun search_index '(lang, labels) =>
            fold_left
              (fun search_index label =>
                 dict_append lang (lower label, concept_id) search_index)
              labels search_index)
         (altLabels data) search_index)
    processed_data [].

(** *** Responses *)

(** The multilingual label map as a JSON object. *)
Definition labels_value (labels : dict string) : value :=
  VDict (map (fun '(lang, label) => (VStr lang, VStr label)) labels).

Definition format_topic_for_response (concept_data : Concept) : value :=
  VDict [ (VStr "local_identifier", VStr (cid concept_data));
          (VStr "identifiers", VList []);
          (VStr "entity_type", VStr "topic");
          (VStr "labels", labels_value (prefLabels concept_data)) ].

(** The two globals the handlers read. *)
Variable ELSST_DATA : Store.
Variable SEARCH_INDEX : Index.

Definition topic_single (topic_id : string) : response :=
  match dict_get topic_id ELSST_DATA with
  | None =>
      HTTPException 404 (VStr ("Topic with ID '" +:+ topic_id +:+ "' not found."))
  | Some concept_data =>
      let topic_graph_item :=
        VDict [ (VStr "local_identifier", VStr (cid concept_data));
                (VStr "entity_type", VStr "topic");
                (VStr "labels", labels_value (prefLabels concept_data)) ] in
      Success
        (VDict [ (VStr "@context",
                  VList [ VStr SKG_IF_CONTEXT_URL;
                          VDict [(VStr "@base", VStr SKG_IF_BASE_URL)] ]);
                 (VStr "@graph", VList [topic_graph_item]) ])
  end.

(** The [detail] of the three 422 answers of [topic_result]. *)
Definition validation_error (msg type : string) : value :=
  VList [ VDict [ (VStr "loc", VList [VStr "query"; VStr "filter"]);
                  (VStr "msg", VStr msg);
                  (VStr "type", VStr type) ] ].

(** Lines 260-261: one turn of the loop; unpacking anything but two
    strings raises [ValueError]. *)
Definition parse_step (filter_params : dict string) (part : string)
  : result (dict string) :=
  match split1 ":" part with
  | [key; val] => Ok (dict_set (strip key) (strip val) filter_params)
  | _ => Raise ValueError
  end.

(** Lines 257-261: the [try] body. *)
Definition parse_filter (filter : string) : result (dict string) :=
  for_each parse_step (split "," filter) [].

(** Lines 300-307. *)
Definition matching (query : string) (labels_for_lang : list (string * string))
  : gset string :=
  fold_left
    (fun matching_concept_ids '(label, concept_id) =>
       if contains query label then matching_concept_ids ∪ {[concept_id]}
       else matching_concept_ids)
    labels_for_lang ∅.

(** Lines 296-326, once the filter is validated. *)
Definition search (search_term language_code : string) : value :=
  let query := lower search_term in
  let labels_for_lang := default [] (dict_get language_code SEARCH_INDEX) in
  let matching_concept_ids := matching query labels_for_lang in
  let results :=
    omap (fun concept_id =>
            format_topic_for_response <$> dict_get concept_id ELSST_DATA)
         (sorted matching_concept_ids) in
  VDict [ (VStr "meta",
           VDict [ (VStr "count", VInt (Z.of_nat (length results)));
                   (VStr "page", VInt 0);
                   (VStr "page_size", VInt 0) ]);
          (VStr "results", VList results) ].

Definition malformed_filter : response :=
  HTTPException 422
    (validation_error
       "Filter parameter is malformed. Expected format: 'key1:value1,key2:value2'."
       "value_error.format").

Definition missing_term : response :=
  HTTPException 422
    (validation_error
       "A 'cf.search.labels' key with a value of at least 3 characters must be provided in the filter."
       "value_error.missing").

Definition bad_language : response :=
  HTTPException 422
    (validation_error
       "If provided, the value for 'cf.search.language' must be a 2-letter ISO 639-1 code."
       "value_error.pattern").

Definition topic_result (filter : string) : response :=
  if String.length filter <? 19 then Rejected ["query"; "filter"]
  else
    match parse_filter filter with
    | Raise ValueError => malformed_filter
    | Raise e => Uncaught e
    | Ok filter_params =>
        match dict_get "cf.search.labels" filter_params with
        | None => missing_term
        | Some search_term =>
            if negb (truthy_id (Some search_term))
               || (String.length search_term <? 3)
            then missing_term
            else
              let language_code :=
                default "en" (dict_get "cf.search.language" filter_params) in
              if negb (re_match_az2 language_code) then bad_language
              else Success (search search_term language_code)
        end
    end.

End Service.

End Server.

(** ** The legacy profile: [src/app/server.py] *)
Module App.
Import Py Loader.

Definition SKG_IF_BASE_URL := "https://w3id.org/skg-if/sandbox/cessda-elsst/".
Definition ELSST_DATASOURCE_ID := "urn:cessda:elsst-v5".
Definition DATA_FILE_PATH := "data/elsst_current.jsonld".

(** "Get English prefLabel": the loop with its [break]. *)
Fixpoint english_label (labels : list value) : result value :=
  match labels with
  | [] => Ok (VStr "")
  | label :: rest =>
      lang ← method_get label "@language" VNone;
      if eq_str lang "en" then method_get label "@value" (VStr "")
      else english_label rest
  end.

(** "Get all altLabels": one turn of the loop. *)
Definition alt_step (alt_labels : list value) (label : value)
  : result (list value) :=
  val ← method_get label "@value" VNone;
  if truthy val then Ok (alt_labels ++ [val]) else Ok alt_labels.

(** The record stored for a concept node (lines 77-105). *)
Definition keep (fields : list (value * value)) : result value :=
  let concept_id := get "@id" VNone fields in
  labels ← iterate (get SKOS_PREF_LABEL (VList []) fields);
  pref_label ← english_label labels;
  labels ← iterate (get SKOS_ALT_LABEL (VList []) fields);
  alt_labels ← for_each alt_step labels [];
  broader_id ← broader_of fields;
  Ok (VDict [ (VStr "@id", concept_id);
              (VStr "prefLabel", pref_label);
              (VStr "altLabel", VList alt_labels);
              (VStr "broader", broader_id) ]).

Definition load_elsst_data : string -> source -> list string * result value :=
  load keep (fun n => "Loaded " +:+ pretty n +:+ " concepts").

(** *** The store *)

Record Concept : Type := {
  cid : string;                           (* '@id' *)
  prefLabel : string;
  altLabel : list string;
  broader : option string
}.

Definition Store : Type := dict Concept.

Definition get_data_source : value :=
  VDict [ (VStr "@id", VStr ELSST_DATASOURCE_ID);
          (VStr "@type", VStr "DataSource");
          (VStr "local_identifier", VStr "elsst-v5");
          (VStr "name",
           VStr "European Language Social Science Thesaurus (ELSST) - Version 5");
          (VStr "url", VStr "https://thesauri.cessda.eu/elsst-5/en/") ].

Definition to_skgif_topic (concept_data : Concept) : value :=
  let local_id := cid concept_data in
  let topic :=
    [ (VStr "@id", VStr (SKG_IF_BASE_URL +:+ quote local_id));
      (VStr "@type", VStr "Topic");
      (VStr "local_identifier", VStr local_id);
      (VStr "name", VStr (prefLabel concept_data));
      (VStr "source", VDict [(VStr "@id", VStr ELSST_DATASOURCE_ID)]) ] in
  let topic :=
    match altLabel concept_data with
    | [] => topic
    | alt_labels => topic ++ [(VStr "alternate_name", VList (VStr <$> alt_labels))]
    end in
  let topic :=
    match broader concept_data with
    | Some parent =>
        if truthy_id (Some parent)
        then topic ++ [ (VStr "parent_topic",
                         VDict [ (VStr "@type", VStr "Topic");
                                 (VStr "local_identifier", VStr parent) ]) ]
        else topic
    | None => topic
    end in
  VDict topic.

Section Service.

(** [str.lower]. *)
Variable lower : string -> string.

(** The global the handlers read. *)
Variable ELSST_DATA : Store.

Definition get_concept_by_id (concept_id : string) : option Concept :=
  dict_get concept_id ELSST_DATA.

(** The [for _ in range(...)] loop of [get_parent_hierarchy]: [turns] is
    the number of turns left. *)
Fixpoint climb (turns : nat) (current_id : option string)
    (hierarchy : gset string) : gset string :=
  match turns with
  | 0 => hierarchy
  | S turns' =>
      match current_id with
      | Some id =>
          if negb (truthy_id current_id) then hierarchy
          else
            match get_concept_by_id id with
            | Some concept => climb turns' (broader concept) (hierarchy ∪ {[id]})
            | None => hierarchy
            end
      | None => hierarchy
      end
  end.

Definition get_parent_hierarchy (concept_id : string) : gset string :=
  climb 20 (Some concept_id) ∅.

(** Lines 186-196: does the query match this record? *)
Definition matches (query : string) (data : Concept) : bool :=
  contains query (lower (prefLabel data))
  || existsb (fun alt_label => contains query (lower alt_label)) (altLabel data).

Definition matching (query : string) : gset string :=
  fold_left
    (fun matching_concept_ids '(concept_id, data) =>
       if matches query data then matching_concept_ids ∪ {[concept_id]}
       else matching_concept_ids)
    ELSST_DATA ∅.

(** Lines 198-201. *)
Definition related (matching_concept_ids : gset string) : gset string :=
  fold_left
    (fun all_related_ids concept_id =>
       all_related_ids ∪ get_parent_hierarchy concept_id)
    (elements matching_concept_ids) ∅.

(** Lines 203-208.  The topics come in the iteration order of the set,
    here the order of [elements]. *)
Definition graph_entities (all_related_ids : gset string) : list value :=
  get_data_source ::
  omap (fun concept_id => to_skgif_topic <$> get_concept_by_id concept_id)
       (elements all_related_ids).

Definition autocomplete (q : string) : response :=
  if String.length q <? 3 then Rejected ["query"; "q"]
  else
    let query := lower q in
    let matching_concept_ids := matching query in
    let all_related_ids := related matching_concept_ids in
    Success
      (VDict [ (VStr "@context",
                VList [ VStr "https://w3id.org/skg-if/context/skg-if.json";
                        VDict [(VStr "@base", VStr SKG_IF_BASE_URL)] ]);
               (VStr "@graph", VList (graph_entities all_related_ids)) ]).

End Service.

End App.

(** * Properties *)

(** ** Strings and dictionaries *)
Module PyFacts.
Import Py.

(** [v.get(name)] read off a dictionary value. *)
Definition field (name : string) (v : value) : option value :=
  match v with
  | VDict items => lookup (VStr name) items
  | _ => None
  end.

(** [s] occurs in [t] as a contiguous run of characters. *)
Definition substring_of (s t : string) : Prop :=
  exists pre post, t = pre +:+ s +:+ post.

Lemma prefix_split (s t : string) :
  String.prefix s t = true <-> exists post, t = s +:+ post.
Proof.
  revert s. induction t as [|d t IH]; intros [|c s]; simpl.
  - split; [intros _; by exists "" | done].
  - split; [done | intros [post H]; discriminate H].
  - split; [intros _; by exists (String d t) | done].
  - destruct (Ascii.ascii_dec c d) as [->|Hne].
    + rewrite IH. split; intros [post H]; exists post.
      * by rewrite H.
      * by injection H.
    + split; [done | intros [post H]; injection H; congruence].
Qed.

Lemma contains_substring (s t : string) :
  contains s t = true <-> substring_of s t.
Proof.
  induction t as [|d t IH]; cbn [contains].
  - rewrite orb_false_r, prefix_split. split.
    + intros [post H]. by exists "", post.
    + intros [pre [post H]]. destruct pre; simpl in H; [by exists post | discriminate H].
  - rewrite orb_true_iff, prefix_split, IH. split.
    + intros [[post H] | [pre [post H]]].
      * by exists "", post.
      * exists (String d pre), post. simpl. by rewrite H.
    + intros [pre [post H]]. destruct pre as [|e pre]; simpl in H.
      * left. by exists post.
      * right. exists pre, post. by injection H.
Qed.

Lemma dict_get_set_eq {V : Type} (key : string) (v : V) (d : dict V) :
  dict_get key (dict_set key v d) = Some v.
Proof.
  induction d as [|[k old] d IH]; simpl.
  - by rewrite String.eqb_refl.
  - destruct (String.eqb_spec k key) as [->|Hne]; simpl.
    + by rewrite String.eqb_refl.
    + by destruct (String.eqb_spec k key).
Qed.

Lemma dict_get_set_ne {V : Type} (key other : string) (v : V) (d : dict V) :
  key <> other -> dict_get other (dict_set key v d) = dict_get other d.
Proof.
  intros Hne. induction d as [|[k old] d IH]; simpl.
  - by destruct (String.eqb_spec key other).
  - destruct (String.eqb_spec k key) as [->|Hk]; simpl.
    + by destruct (String.eqb_spec key other).
    + by rewrite IH.
Qed.

Lemma dict_get_append {A : Type} (key other : string) (x : A) (d : dict (list A)) :
  default [] (dict_get other (dict_append key x d))
  = default [] (dict_get other d) ++ (if decide (key = other) then [x] else []).
Proof.
  unfold dict_append. destruct (decide (key = other)) as [->|Hne].
  - destruct (dict_get other d) as [old|] eqn:Hget;
      by rewrite dict_get_set_eq.
  - destruct (dict_get key d) as [old|];
      rewrite dict_get_set_ne by done; by rewrite app_nil_r.
Qed.

Lemma dict_get_Some_elem {V : Type} (key : string) (v : V) (d : dict V) :
  dict_get key d = Some v -> (key, v) ∈ d.
Proof.
  induction d as [|[k old] d IH]; simpl; [done|].
  destruct (String.eqb_spec k key) as [->|Hne].
  - intros [= ->]. left.
  - intros H. right. by apply IH.
Qed.

Lemma dict_get_is_Some {V : Type} (key : string) (d : dict V) :
  is_Some (dict_get key d) <-> key ∈ d.*1.
Proof.
  induction d as [|[k old] d IH]; simpl.
  - split; [by intros [? ?] | by intros ?%elem_of_nil].
  - destruct (String.eqb_spec k key) as [->|Hne].
    + split; [intros _; left | by eauto].
    + rewrite IH, elem_of_cons. split; [by right | by intros [?|?]].
Qed.

(** *** Splitting and stripping *)

(** [split1] cuts at the first separator, or finds none. *)
Lemma split1_cases (sep : ascii) (s : string) :
  (split1 sep s = [s] /\ ~ substring_of (String sep "") s)
  \/ exists key val, split1 sep s = [key; val] /\ s = key +:+ String sep val.
Proof.
  induction s as [|c s IH]; simpl.
  - left. split; [done|]. intros [pre [post H]]. by destruct pre.
  - destruct (Ascii.eqb_spec c sep) as [->|Hne].
    + right. by exists "", s.
    + destruct IH as [[-> Hno] | (key & val & -> & ->)].
      * left. split; [done|]. intros [pre [post H]]. destruct pre as [|d pre].
        -- simpl in H. by injection H.
        -- apply Hno. exists pre, post. by injection H.
      * right. by exists (String c key), val.
Qed.

Lemma length_append (s t : string) :
  String.length (s +:+ t) = String.length s + String.length t.
Proof. induction s as [|c s IH]; simpl; [done | by rewrite IH]. Qed.

Lemma length_lstrip (s : string) : String.length (lstrip s) <= String.length s.
Proof. induction s as [|c s IH]; simpl; [done|]. destruct (is_space c); simpl; lia. Qed.

Lemma length_rstrip (s : string) : String.length (rstrip s) <= String.length s.
Proof.
  induction s as [|c s IH]; simpl; [done|].
  destruct (rstrip s); [destruct (is_space c)|]; simpl in *; lia.
Qed.

Lemma length_strip (s : string) : String.length (strip s) <= String.length s.
Proof. unfold strip. etrans; [apply length_rstrip | apply length_lstrip]. Qed.

(** A stripped string does not end with a space. *)
Lemma rstrip_last (s pre : string) (c : ascii) :
  rstrip s = pre +:+ String c "" -> is_space c = false.
Proof.
  revert pre. induction s as [|d s IH]; intros pre; simpl.
  - by destruct pre.
  - destruct (rstrip s) as [|e kept] eqn:Hkept.
    + destruct (is_space d) eqn:Hd; [by destruct pre|].
      destruct pre as [|? [|? ?]]; simpl; intros [= ]; by subst.
    + destruct pre as [|? pre]; simpl; [done|].
      intros [= _ H]. by apply (IH pre).
Qed.

Lemma split_length (sep : ascii) (s part : string) :
  part ∈ split sep s -> String.length part <= String.length s.
Proof.
  revert part. induction s as [|c s IH]; intros part; simpl.
  - by intros ->%list_elem_of_singleton.
  - destruct (Ascii.eqb c sep).
    + intros [->|H]%elem_of_cons; [simpl; lia|]. apply IH in H. lia.
    + destruct (split sep s) as [|head tail] eqn:Hsplit.
      * intros ->%list_elem_of_singleton. simpl. lia.
      * intros [->|H]%elem_of_cons.
        -- simpl. assert (String.length head <= String.length s); [apply IH; left|lia].
        -- assert (String.length part <= String.length s); [apply IH; by right|lia].
Qed.

(** The language codes the pattern is meant for: two letters a-z. *)
Definition two_lowercase (s : string) : Prop :=
  exists a b, s = String a (String b "") /\ is_az a = true /\ is_az b = true.

(** On a stripped string, the pattern matches the two-letter codes only. *)
Lemma re_match_az2_strip (s : string) :
  re_match_az2 (strip s) = true <-> two_lowercase (strip s).
Proof.
  split.
  - unfold re_match_az2. destruct (strip s) as [|a [|b rest]] eqn:Hs; [done..|].
    intros [[Ha Hb]%andb_true_iff Hrest]%andb_true_iff.
    destruct rest as [|c [|? ?]]; [by exists a, b | | done].
    apply Ascii.eqb_eq in Hrest as ->.
    by specialize (rstrip_last (lstrip s) (String a (String b "")) newline Hs).
  - intros (a & b & -> & Ha & Hb). simpl. by rewrite Ha, Hb.
Qed.

(** [sorted] lists the members of the set, each once, in ascending order. *)
Lemma sorted_elem (ids : gset string) (x : string) : x ∈ sorted ids <-> x ∈ ids.
Proof. unfold sorted. by rewrite merge_sort_Permutation, elem_of_elements. Qed.

Lemma sorted_NoDup (ids : gset string) : NoDup (sorted ids).
Proof. unfold sorted. rewrite merge_sort_Permutation. apply NoDup_elements. Qed.

Lemma sorted_Sorted (ids : gset string) : Sorted String.le (sorted ids).
Proof. unfold sorted. apply (Sorted_merge_sort String.le). Qed.

(** Whatever order the set is listed in, sorting gives the same list. *)
Lemma sorted_canonical (ids : gset string) (l : list string) :
  l ≡ₚ elements ids -> Sorted String.le l -> l = sorted ids.
Proof.
  intros Hperm Hsorted. apply (Sorted_unique String.le); [done | apply sorted_Sorted|].
  unfold sorted. by rewrite merge_sort_Permutation.
Qed.

End PyFacts.

(** ** The search index and the search of the current profile *)
Module IndexFacts.
Import Py PyFacts Server.

Section Index.

Variable lower : string -> string.

(** The entries a concept contributes to the posting list of [lang], as the
    specification words them: one per preferred label of that language, ... *)
Definition pref_entries (lang concept_id : string) (data : Concept)
  : list (string * string) :=
  omap (fun '(l, label) =>
          if decide (l = lang) then Some (lower label, concept_id) else None)
       (prefLabels data).

(** ... then one per alternative label of that language, in list order. *)
Definition alt_entries (lang concept_id : string) (data : Concept)
  : list (string * string) :=
  flat_map (fun '(l, labels) =>
              if decide (l = lang)
              then map (fun label => (lower label, concept_id)) labels
              else [])
           (altLabels data).

(** The posting list of [lang] as the specification words it. *)
Definition postings (lang : string) (store : Store) : list (string * string) :=
  flat_map (fun '(concept_id, data) =>
              pref_entries lang concept_id data ++ alt_entries lang concept_id data)
           store.

(** The posting list of [lang] in an index. *)
Definition posting_list (lang : string) (index : Index) : list (string * string) :=
  default [] (dict_get lang index).

Lemma fold_pref (lang concept_id : string) (prefs : dict string) (index : Index) :
  posting_list lang
    (fold_left (fun search_index '(l, label) =>
                  dict_append l (lower label, concept_id) search_index)
               prefs index)
  = posting_list lang index
    ++ omap (fun '(l, label) =>
               if decide (l = lang) then Some (lower label, concept_id) else None)
            prefs.
Proof.
  revert index. induction prefs as [|[l label] prefs IH]; intros index; simpl.
  - by rewrite app_nil_r.
  - rewrite IH. unfold posting_list at 1. rewrite dict_get_append.
    destruct (decide (l = lang)); simpl.
    + by rewrite <- app_assoc.
    + by rewrite app_nil_r.
Qed.

Lemma fold_labels (lang l concept_id : string) (labels : list string) (index : Index) :
  posting_list lang
    (fold_left (fun search_index label =>
                  dict_append l (lower label, concept_id) search_index)
               labels index)
  = posting_list lang index
    ++ (if decide (l = lang)
        then map (fun label => (lower label, concept_id)) labels else []).
Proof.
  revert index. induction labels as [|label labels IH]; intros index; simpl.
  - destruct (decide (l = lang)); by rewrite app_nil_r.
  - rewrite IH. unfold posting_list at 1. rewrite dict_get_append.
    destruct (decide (l = lang)); simpl.
    + by rewrite <- app_assoc.
    + by rewrite !app_nil_r.
Qed.

Lemma fold_alt (lang concept_id : string) (alts : dict (list string)) (index : Index) :
  posting_list lang
    (fold_left (fun search_index '(l, labels) =>
                  fold_left (fun search_index label =>
                               dict_append l (lower label, concept_id) search_index)
                            labels search_index)
               alts index)
  = posting_list lang index
    ++ flat_map (fun '(l, labels) =>
                   if decide (l = lang)
                   then map (fun label => (lower label, concept_id)) labels
                   else [])
                alts.
Proof.
  revert index. induction alts as [|[l labels] alts IH]; intros index; simpl.
  - by rewrite app_nil_r.
  - rewrite IH, fold_labels. by rewrite <- app_assoc.
Qed.

(** The loop of [build_search_index], started from any index. *)
Definition index_from (index : Index) (processed_data : Store) : Index :=
  fold_left
    (fun search_index '(concept_id, data) =>
       let search_index :=
         fold_left
           (fun search_index '(lang, label) =>
              dict_append lang (lower label, concept_id) search_index)
           (prefLabels data) search_index in
       fold_left
         (fun search_index '(lang, labels) =>
            fold_left
              (fun search_index label =>
                 dict_append lang (lower label, concept_id) search_index)
              labels search_index)
         (altLabels data) search_index)
    processed_data index.

Lemma index_from_postings (lang : string) (store : Store) (index : Index) :
  posting_list lang (index_from index store)
  = posting_list lang index ++ postings lang store.
Proof.
  revert index. induction store as [|[concept_id data] store IH]; intros index.
  - simpl. by rewrite app_nil_r.
  - unfold index_from in *. cbn [fold_left flat_map postings].
    rewrite IH. cbn beta iota zeta.
    rewrite fold_alt, fold_pref. unfold postings, pref_entries, alt_entries.
    by rewrite <- !app_assoc.
Qed.

Lemma posting_list_build (store : Store) (lang : string) :
  posting_list lang (build_search_index lower store) = postings lang store.
Proof.
  change (build_search_index lower store) with (index_from [] store).
  by rewrite index_from_postings.
Qed.

(** C8. [build_search_index] is a function of the store alone; the posting
    list it gives a language is, concept after concept in the iteration
    order of the store, one (lowercase label, concept id) entry for each
    preferred label of that language followed by one for each alternative
    label of that language in list order, duplicates kept; and the empty
    store gives the empty index. *)
Theorem build_search_index_postings (store : Store) (lang : string) :
  posting_list lang (build_search_index lower store) = postings lang store
  /\ build_search_index lower [] = [].
Proof. split; [apply posting_list_build | reflexivity]. Qed.

(** *** Searching *)

Lemma matching_elem (query : string) (entries : list (string * string))
    (concept_id : string) :
  concept_id ∈ matching query entries
  <-> exists label, (label, concept_id) ∈ entries /\ substring_of query label.
Proof.
  unfold matching.
  enough (Hgen : forall acc : gset string,
    concept_id ∈ fold_left
      (fun matching_concept_ids '(label, concept_id) =>
         if contains query label then matching_concept_ids ∪ {[concept_id]}
         else matching_concept_ids) entries acc
    <-> concept_id ∈ acc
        \/ exists label, (label, concept_id) ∈ entries /\ substring_of query label).
  { rewrite Hgen. split; [intros [H|H]; [set_solver | done] | by right]. }
  induction entries as [|[label id] entries IH]; intros acc; simpl.
  - split; [by left | intros [H|[label [H _]]]; [done | by apply elem_of_nil in H]].
  - rewrite IH. split.
    + intros [H | [l [Hin Hsub]]].
      * destruct (contains query label) eqn:Hc; [|by left].
        apply elem_of_union in H as [H|H]; [by left|].
        apply elem_of_singleton in H as ->. right. exists label.
        split; [left | by apply contains_substring].
      * right. exists l. split; [by right | done].
    + intros [H | [l [Hin Hsub]]].
      * left. destruct (contains query label); set_solver.
      * apply elem_of_cons in Hin as [[= -> ->] | Hin].
        -- left. apply contains_substring in Hsub. rewrite Hsub. set_solver.
        -- right. by exists l.
Qed.

(** Every concept id of the index built from a store is a key of that store. *)
Lemma postings_key (lang : string) (store : Store) (label concept_id : string) :
  (label, concept_id) ∈ postings lang store -> is_Some (dict_get concept_id store).
Proof.
  unfold postings. rewrite list_elem_of_In, in_flat_map.
  intros [[id data] [Hin Hentry]]. apply dict_get_is_Some.
  apply list_elem_of_In in Hin.
  assert (id = concept_id) as <-.
  { apply in_app_or in Hentry as [H|H].
    - unfold pref_entries in H. apply list_elem_of_In, list_elem_of_omap in H.
      destruct H as [[l lab] [_ H]]. by destruct (decide (l = lang)); simplify_eq.
    - unfold alt_entries in H. apply in_flat_map in H as [[l labels] [_ H]].
      destruct (decide (l = lang)); [|done].
      apply in_map_iff in H as [lab [H _]]. by simplify_eq. }
  apply list_elem_of_fmap. by exists (id, data).
Qed.

(** The result item the flat profile gives for a concept id of the store. *)
Definition item_for (store : Store) (concept_id : string) (item : value) : Prop :=
  exists data,
    dict_get concept_id store = Some data /\ item = format_topic_for_response data.

Lemma omap_items (store : Store) (ids : list string) :
  Forall (fun id => is_Some (dict_get id store)) ids ->
  Forall2 (item_for store) ids
    (omap (fun concept_id =>
             format_topic_for_response <$> dict_get concept_id store) ids).
Proof.
  induction 1 as [|id ids [data Hdata] _ IH]; simpl; [constructor|].
  rewrite Hdata. simpl. constructor; [by exists data | done].
Qed.

(** The body of a successful answer of [topic_result]. *)
Definition envelope (results : list value) : value :=
  VDict [ (VStr "meta",
           VDict [ (VStr "count", VInt (Z.of_nat (length results)));
                   (VStr "page", VInt 0);
                   (VStr "page_size", VInt 0) ]);
          (VStr "results", VList results) ].

(** The search proper, on the index built from the store. *)
Lemma search_results (store : Store) (term lang : string) :
  exists ids results,
    search lower store (build_search_index lower store) term lang = envelope results
    /\ Forall2 (item_for store) ids results
    /\ NoDup ids
    /\ Sorted String.le ids
    /\ forall concept_id,
         concept_id ∈ ids
         <-> exists label,
               (label, concept_id)
                 ∈ posting_list lang (build_search_index lower store)
               /\ substring_of (lower term) label.
Proof.
  set (index := build_search_index lower store).
  set (ids := sorted (matching (lower term) (posting_list lang index))).
  exists ids, (omap (fun concept_id =>
                       format_topic_for_response <$> dict_get concept_id store) ids).
  assert (Hmem : forall concept_id,
    concept_id ∈ ids
    <-> exists label, (label, concept_id) ∈ posting_list lang index
                      /\ substring_of (lower term) label).
  { intros concept_id. unfold ids. by rewrite sorted_elem, matching_elem. }
  split; [reflexivity|]. split; [|split; [apply sorted_NoDup|split; [apply sorted_Sorted|done]]].
  apply omap_items, Forall_forall. intros id [label [Hin _]]%Hmem.
  unfold index in Hin. rewrite posting_list_build in Hin.
  by eapply postings_key.
Qed.

(** What an accepted filter carries: the parsed term and language. *)
Lemma topic_result_Success (store : Store) (index : Index) (filter : string)
    (body : value) :
  topic_result lower store index filter = Success body ->
  exists filter_params term,
    parse_filter filter = Ok filter_params
    /\ dict_get "cf.search.labels" filter_params = Some term
    /\ 3 <= String.length term
    /\ body = search lower store index term
                (default "en" (dict_get "cf.search.language" filter_params)).
Proof.
  unfold topic_result. destruct (String.length filter <? 19); [done|].
  destruct (parse_filter filter) as [filter_params|e]; [|by destruct e].
  destruct (dict_get "cf.search.labels" filter_params) as [term|] eqn:Hget; [|done].
  destruct (negb (truthy_id (Some term)) || (String.length term <? 3)) eqn:Hterm; [done|].
  destruct (negb (re_match_az2 _)); [done|].
  intros [= <-]. exists filter_params, term. repeat split; [done|].
  apply orb_false_iff in Hterm as [_ Hlen]. by apply Nat.ltb_ge in Hlen.
Qed.

(** C1. For every store, with the index built from it, and for every filter
    the endpoint accepts (its term then has at least three characters): the
    result list holds the item of a concept id exactly when the lowercased
    term is a substring of one of the index entries of that concept in the
    requested language, each such id gives one item, and the items follow
    the ascending order of the concept ids. *)
Theorem topic_result_matches (store : Store) (filter : string) (body : value) :
  topic_result lower store (build_search_index lower store) filter = Success body ->
  exists filter_params term lang ids results,
    parse_filter filter = Ok filter_params
    /\ dict_get "cf.search.labels" filter_params = Some term
    /\ lang = default "en" (dict_get "cf.search.language" filter_params)
    /\ 3 <= String.length term
    /\ body = envelope results
    /\ Forall2 (item_for store) ids results
    /\ NoDup ids
    /\ Sorted String.le ids
    /\ forall concept_id,
         concept_id ∈ ids
         <-> exists label,
               (label, concept_id)
                 ∈ posting_list lang (build_search_index lower store)
               /\ substring_of (lower term) label.
Proof.
  intros (filter_params & term & Hparse & Hterm & Hlen & ->)%topic_result_Success.
  set (lang := default "en" (dict_get "cf.search.language" filter_params)).
  destruct (search_results store term lang)
    as (ids & results & Hbody & Hitems & Hnodup & Hsorted & Hmem).
  exists filter_params, term, lang, ids, results. by split_and!.
Qed.

End Index.

End IndexFacts.

(** ** Validation of the filter (current profile) *)
Module FilterFacts.
Import Py PyFacts Server.

(** A structured validation-error body that names the query parameter
    [filter]: a list of one entry whose ["loc"] is [["query", "filter"]],
    with a message and an error type. *)
Definition names_filter (detail : value) : Prop :=
  exists msg type,
    detail = VList [ VDict [ (VStr "loc", VList [VStr "query"; VStr "filter"]);
                             (VStr "msg", VStr msg);
                             (VStr "type", VStr type) ] ]
    /\ msg <> "" /\ type <> "".

(** A 422 answer that names the query parameter [filter]: FastAPI's own,
    located at that parameter, or one raised by the handler with such a
    body. *)
Definition filter_error (r : response) : Prop :=
  status r = 422
  /\ (r = Rejected ["query"; "filter"]
      \/ exists detail, r = HTTPException 422 detail /\ names_filter detail).

Lemma parse_step_cases (filter_params : dict string) (part : string) :
  (parse_step filter_params part = Raise ValueError
   /\ ~ substring_of ":" part)
  \/ exists key val,
       part = key +:+ String ":" val
       /\ parse_step filter_params part
          = Ok (dict_set (strip key) (strip val) filter_params).
Proof.
  unfold parse_step.
  destruct (split1_cases ":" part) as [[-> Hno] | (key & val & -> & ->)].
  - by left.
  - right. by exists key, val.
Qed.

(** The loop fails exactly on a part without a colon, and with [ValueError]. *)
Lemma parse_loop_Raise (parts : list string) (init : dict string) (e : exn) :
  for_each parse_step parts init = Raise e ->
  e = ValueError /\ exists part, part ∈ parts /\ ~ substring_of ":" part.
Proof.
  revert init. induction parts as [|part parts IH]; intros init; simpl; [done|].
  destruct (parse_step_cases init part) as [[-> Hno] | (key & val & _ & ->)]; simpl.
  - intros [= <-]. split; [done|]. exists part. split; [left | done].
  - intros [-> (p & Hp & Hno)]%IH. split; [done|]. exists p. split; [by right | done].
Qed.

Lemma parse_loop_malformed (parts : list string) (init : dict string) :
  (exists part, part ∈ parts /\ ~ substring_of ":" part) ->
  for_each parse_step parts init = Raise ValueError.
Proof.
  revert init. induction parts as [|part parts IH]; intros init [p [Hp Hno]]; simpl.
  - by apply elem_of_nil in Hp.
  - destruct (parse_step_cases init part) as [[-> _] | (key & val & Hpart & ->)]; simpl; [done|].
    apply IH. exists p. split; [|done].
    apply elem_of_cons in Hp as [->|Hp]; [|done].
    destruct Hno. exists key, val. by rewrite Hpart.
Qed.

(** Every parameter of a parsed filter was cut from one of its parts, key
    and value stripped. *)
Lemma parse_loop_Ok (parts : list string) (init filter_params : dict string)
    (name v : string) :
  for_each parse_step parts init = Ok filter_params ->
  dict_get name filter_params = Some v ->
  dict_get name init = Some v
  \/ exists part key val,
       part ∈ parts /\ part = key +:+ String ":" val
       /\ name = strip key /\ v = strip val.
Proof.
  revert init. induction parts as [|part parts IH]; intros init; simpl.
  - intros [= ->]. by left.
  - destruct (parse_step_cases init part) as [[-> _] | (key & val & Hpart & ->)]; simpl; [done|].
    intros Hloop Hget. destruct (IH _ Hloop Hget) as [Hinit | (p & k & w & Hp & ? & ? & ?)].
    + destruct (decide (strip key = name)) as [<-|Hne].
      * rewrite dict_get_set_eq in Hinit. injection Hinit as <-.
        right. exists part, key, val. split_and!; [left | done..].
      * rewrite dict_get_set_ne in Hinit by done. by left.
    + right. exists p, k, w. split_and!; [by right | done..].
Qed.

Section Validation.

Variable lower : string -> string.
Variable ELSST_DATA : Store.
Variable SEARCH_INDEX : Index.

Local Abbreviation topic_result := (topic_result lower ELSST_DATA SEARCH_INDEX).

Lemma filter_error_Rejected : filter_error (Rejected ["query"; "filter"]).
Proof. split; [done | by left]. Qed.

Lemma filter_error_malformed : filter_error malformed_filter.
Proof.
  split; [done | right]. eexists. split; [reflexivity|]. by eexists _, _.
Qed.

Lemma filter_error_missing : filter_error missing_term.
Proof.
  split; [done | right]. eexists. split; [reflexivity|]. by eexists _, _.
Qed.

Lemma filter_error_language : filter_error bad_language.
Proof.
  split; [done | right]. eexists. split; [reflexivity|]. by eexists _, _.
Qed.

(** The handler lets no exception out: parsing raises [ValueError] only,
    and that one is caught. *)
Lemma topic_result_caught (filter : string) (e : exn) :
  topic_result filter <> Uncaught e.
Proof.
  unfold Server.topic_result. destruct (String.length filter <? 19); [done|].
  destruct (parse_filter filter) as [filter_params|e'] eqn:Hparse.
  - destruct (dict_get "cf.search.labels" filter_params) as [term|]; [|done].
    destruct (negb _ || _); [done|]. by destruct (negb _).
  - apply parse_loop_Raise in Hparse as [-> _]. done.
Qed.

(** A filter that carries a term of three characters or more is long
    enough for the declared minimum length of the parameter. *)
Lemma accepted_length (filter : string) (filter_params : dict string) (term : string) :
  parse_filter filter = Ok filter_params ->
  dict_get "cf.search.labels" filter_params = Some term ->
  3 <= String.length term ->
  19 <= String.length filter.
Proof.
  intros Hparse Hget Hlen.
  destruct (parse_loop_Ok _ _ _ _ _ Hparse Hget)
    as [Hinit | (part & key & val & Hpart & -> & Hkey & ->)]; [done|].
  apply split_length in Hpart. rewrite length_append in Hpart. simpl in Hpart.
  pose proof (length_strip key) as Hk. rewrite <- Hkey in Hk. simpl in Hk.
  pose proof (length_strip val). lia.
Qed.

(** C6. Whatever the filter: if one of its comma-separated parts has no
    colon, or its parsed [cf.search.labels] value is missing or shorter than
    three characters, or its parsed [cf.search.language] value is not two
    letters a-z, the answer is a 422 whose body locates the error at the
    query parameter [filter]; and with a valid term and no
    [cf.search.language] the search runs with the language ["en"]. *)
Theorem topic_result_validation (filter : string) :
  ((exists part, part ∈ split "," filter /\ ~ substring_of ":" part) ->
   filter_error (topic_result filter))
  /\ (forall filter_params,
        parse_filter filter = Ok filter_params ->
        (dict_get "cf.search.labels" filter_params = None
         \/ exists term, dict_get "cf.search.labels" filter_params = Some term
                         /\ String.length term < 3) ->
        filter_error (topic_result filter))
  /\ (forall filter_params lang,
        parse_filter filter = Ok filter_params ->
        dict_get "cf.search.language" filter_params = Some lang ->
        ~ two_lowercase lang ->
        filter_error (topic_result filter))
  /\ (forall filter_params term,
        parse_filter filter = Ok filter_params ->
        dict_get "cf.search.labels" filter_params = Some term ->
        3 <= String.length term ->
        dict_get "cf.search.language" filter_params = None ->
        topic_result filter
        = Success (search lower ELSST_DATA SEARCH_INDEX term "en")).
Proof.
  split_and!.
  - intros Hbad. unfold Server.topic_result.
    destruct (String.length filter <? 19); [apply filter_error_Rejected|].
    unfold parse_filter. rewrite (parse_loop_malformed _ _ Hbad).
    apply filter_error_malformed.
  - intros filter_params Hparse Hterm. unfold Server.topic_result.
    destruct (String.length filter <? 19); [apply filter_error_Rejected|].
    rewrite Hparse. destruct Hterm as [-> | (term & -> & Hlen)];
      [apply filter_error_missing|].
    apply Nat.ltb_lt in Hlen. rewrite Hlen, orb_true_r. apply filter_error_missing.
  - intros filter_params lang Hparse Hlang Hno. unfold Server.topic_result.
    destruct (String.length filter <? 19); [apply filter_error_Rejected|].
    rewrite Hparse.
    destruct (dict_get "cf.search.labels" filter_params) as [term|];
      [|apply filter_error_missing].
    destruct (negb _ || _); [apply filter_error_missing|].
    rewrite Hlang. simpl.
    destruct (parse_loop_Ok _ _ _ _ _ Hparse Hlang)
      as [Hinit | (part & key & val & _ & _ & _ & ->)]; [done|].
    destruct (re_match_az2 (strip val)) eqn:Hmatch; [|apply filter_error_language].
    by apply re_match_az2_strip in Hmatch.
  - intros filter_params term Hparse Hterm Hlen Hlang. unfold Server.topic_result.
    pose proof (accepted_length _ _ _ Hparse Hterm Hlen) as Hfilter.
    apply Nat.ltb_ge in Hfilter. rewrite Hfilter, Hparse, Hterm, Hlang.
    assert ((String.length term <? 3) = false) as -> by (by apply Nat.ltb_ge).
    destruct term; [simpl in Hlen; lia | done].
Qed.

End Validation.

End FilterFacts.

(** ** The legacy profile: ancestors, topics and the graph *)
Module AppFacts.
Import Py PyFacts App.

(** The record of the store as the loader writes it. *)
Definition record_value (data : Concept) : value :=
  VDict [ (VStr "@id", VStr (cid data));
          (VStr "prefLabel", VStr (prefLabel data));
          (VStr "altLabel", VList (VStr <$> altLabel data));
          (VStr "broader", from_option VStr VNone (broader data)) ].

Definition store_value (store : Store) : value :=
  VDict (map (fun '(concept_id, data) => (VStr concept_id, record_value data)) store).

(** [reaches store k a x]: [x] is [k] broader links above [a], every id on
    the way, both ends included, being a non-empty key of the store. *)
Inductive reaches (store : Store) : nat -> string -> string -> Prop :=
  | reaches_here (id : string) (concept : Concept) :
      id <> "" -> dict_get id store = Some concept -> reaches store 0 id id
  | reaches_up (k : nat) (id parent x : string) (concept : Concept) :
      id <> "" -> dict_get id store = Some concept ->
      broader concept = Some parent ->
      reaches store k parent x -> reaches store (S k) id x.

Section Ancestors.

Variable store : Store.

Lemma truthy_id_Some (id : string) : truthy_id (Some id) = true <-> id <> "".
Proof. simpl. destruct (String.eqb_spec id ""); naive_solver. Qed.

Lemma climb_elem (turns : nat) (current_id : option string)
    (hierarchy : gset string) (x : string) :
  x ∈ climb store turns current_id hierarchy
  <-> x ∈ hierarchy
      \/ exists id k, current_id = Some id /\ k < turns /\ reaches store k id x.
Proof.
  revert current_id hierarchy.
  induction turns as [|turns IH]; intros current_id hierarchy; simpl.
  - split; [by left | intros [H | (id & k & _ & Hk & _)]; [done | lia]].
  - destruct current_id as [id|]; [|split; [by left | by intros [H | (? & ? & ? & _)]]].
    simpl. destruct (String.eqb_spec id "") as [->|Hid]; simpl.
    + split; [by left | intros [H | (id & k & [= <-] & _ & Hr)]; [done|]].
      inversion Hr; by subst.
    + unfold get_concept_by_id.
      destruct (dict_get id store) as [concept|] eqn:Hget.
      * rewrite IH, elem_of_union, elem_of_singleton. split.
        -- intros [[H | ->] | (parent & k & Hb & Hk & Hr)].
           ++ by left.
           ++ right. exists id, 0. split_and!; [done | lia | by econstructor].
           ++ right. exists id, (S k). split_and!; [done | lia | by econstructor].
        -- intros [H | (id' & k & [= <-] & Hk & Hr)]; [by left; left|].
           inversion Hr; subst.
           ++ left. by right.
           ++ right. simplify_eq. eexists _, _. split_and!; [done | | done]. lia.
      * split; [by left | intros [H | (id' & k & [= <-] & _ & Hr)]; [done|]].
        inversion Hr; by simplify_eq.
Qed.

Lemma climb_size (turns : nat) (current_id : option string) (hierarchy : gset string) :
  size (climb store turns current_id hierarchy) <= size hierarchy + turns.
Proof.
  revert current_id hierarchy.
  induction turns as [|turns IH]; intros current_id hierarchy; simpl; [lia|].
  destruct current_id as [id|]; [|lia].
  destruct (negb _); [lia|].
  destruct (get_concept_by_id store id) as [concept|]; [|lia].
  etrans; [apply IH|].
  rewrite size_union_alt.
  assert (size (({[id]} : gset string) ∖ hierarchy) <= 1); [|lia].
  rewrite <- (size_singleton (C := gset string) id).
  apply subseteq_size. set_solver.
Qed.

(** C2, as the code has it.  [get_parent_hierarchy] is total (the loop has
    twenty turns at most, and nothing in it raises); it returns exactly the
    ids met by following [broader] from the start, at most nineteen links up,
    as long as each id is non-empty and a key of the store, hence at most
    twenty ids; a start id that is non-empty and in the store is among them. *)
Theorem get_parent_hierarchy_chain (start : string) :
  (forall x, x ∈ get_parent_hierarchy store start
             <-> exists k, k < 20 /\ reaches store k start x)
  /\ size (get_parent_hierarchy store start) <= 20
  /\ (start <> "" -> is_Some (dict_get start store) ->
      start ∈ get_parent_hierarchy store start).
Proof.
  assert (Hchain : forall x, x ∈ get_parent_hierarchy store start
                             <-> exists k, k < 20 /\ reaches store k start x).
  { intros x. unfold get_parent_hierarchy. rewrite climb_elem. split.
    - intros [H | (id & k & [= <-] & Hk & Hr)]; [set_solver | by exists k].
    - intros (k & Hk & Hr). right. by exists start, k. }
  split_and!; [done | |].
  - unfold get_parent_hierarchy. etrans; [apply climb_size|]. by rewrite size_empty.
  - intros Hne [concept Hget]. apply Hchain. exists 0. split; [lia | by econstructor].
Qed.

End Ancestors.

(** *** Minted identifiers *)

(** The characters [quote] writes: unreserved ones, the slash and the
    percent sign of an escape. *)
Definition url_char (c : ascii) : bool :=
  always_safe c || Ascii.eqb c "/" || Ascii.eqb c "%".

Fixpoint all_chars (p : ascii -> bool) (s : string) : bool :=
  match s with
  | EmptyString => true
  | String c rest => p c && all_chars p rest
  end.

Lemma all_chars_append (p : ascii -> bool) (s t : string) :
  all_chars p (s +:+ t) = all_chars p s && all_chars p t.
Proof. induction s as [|c s IH]; simpl; [done | by rewrite IH, andb_assoc]. Qed.

Lemma quote_char_url (c : ascii) :
  all_chars url_char (quote_char c) = true /\ 1 <= String.length (quote_char c).
Proof. destruct c as [[] [] [] [] [] [] [] []]; vm_compute; split; (reflexivity || lia). Qed.

Lemma quote_char_safe (c : ascii) :
  always_safe c || Ascii.eqb c "/" = true -> quote_char c = String c "".
Proof. unfold quote_char. by intros ->. Qed.

(** [quote] writes URL characters only, and never shortens its argument. *)
Lemma quote_url (s : string) :
  all_chars url_char (quote s) = true /\ String.length s <= String.length (quote s).
Proof.
  induction s as [|c s [IH1 IH2]]; simpl; [done|].
  destruct (quote_char_url c) as [H1 H2].
  rewrite all_chars_append, length_append, H1, IH1. split; [done | lia].
Qed.

(** A minted identifier is never the local identifier it is minted from. *)
Lemma minted_differs (id : string) : SKG_IF_BASE_URL +:+ quote id <> id.
Proof.
  intros H. apply (f_equal String.length) in H. rewrite length_append in H.
  destruct (quote_url id) as [_ Hlen]. simpl in H. lia.
Qed.

(** The three stages of [to_skgif_topic] keep what the first one wrote. *)
Lemma lookup_app_l (key : value) (items more : list (value * value)) (v : value) :
  lookup key items = Some v -> lookup key (items ++ more) = Some v.
Proof.
  induction items as [|[k w] items IH]; simpl; [done|]. by destruct (key_eqb k key).
Qed.

Lemma lookup_app_r (key : value) (items more : list (value * value)) :
  lookup key items = None -> lookup key (items ++ more) = lookup key more.
Proof.
  induction items as [|[k w] items IH]; simpl; [done|]. by destruct (key_eqb k key).
Qed.

(** C7, as the code has it.  The topic node of a record carries the base URI
    followed by the percent-encoding of the local identifier as its ["@id"];
    when the record's broader identifier is a non-empty string, it carries a
    parent reference made of the type tag and the parent's local identifier
    alone, which is never the parent's minted identifier; and when the
    broader identifier is missing or empty it carries no parent reference. *)
Theorem to_skgif_topic_identifiers (data : Concept) :
  field "@id" (to_skgif_topic data)
  = Some (VStr (SKG_IF_BASE_URL +:+ quote (cid data)))
  /\ (forall parent,
        broader data = Some parent -> parent <> "" ->
        field "parent_topic" (to_skgif_topic data)
        = Some (VDict [ (VStr "@type", VStr "Topic");
                        (VStr "local_identifier", VStr parent) ])
        /\ SKG_IF_BASE_URL +:+ quote parent <> parent)
  /\ (broader data = None \/ broader data = Some "" ->
      field "parent_topic" (to_skgif_topic data) = None).
Proof.
  unfold to_skgif_topic, field. split_and!.
  - destruct (broader data) as [parent|]; [destruct (truthy_id (Some parent))|];
      destruct (altLabel data); by repeat (apply lookup_app_l).
  - intros parent -> Hne. apply truthy_id_Some in Hne as ->.
    split; [|apply minted_differs].
    rewrite lookup_app_r; [by simpl|].
    destruct (altLabel data); [done | by rewrite lookup_app_r].
  - intros [-> | ->]; cbn [truthy_id String.eqb negb]; by destruct (altLabel data).
Qed.

(** *** The graph of [autocomplete] *)

Section Graph.

Variable lower : string -> string.
Variable store : Store.

(** No record of the store matches the query. *)
Definition no_match (query : string) : Prop :=
  forall concept_id data,
    (concept_id, data) ∈ store ->
    ~ substring_of query (lower (prefLabel data))
    /\ forall alt_label, alt_label ∈ altLabel data ->
                         ~ substring_of query (lower alt_label).

Lemma no_match_matches (query concept_id : string) (data : Concept) :
  no_match query -> (concept_id, data) ∈ store -> matches lower query data = false.
Proof.
  intros Hno Hin. destruct (Hno _ _ Hin) as [Hpref Halt]. unfold matches.
  apply orb_false_iff. split.
  - apply not_true_is_false. by rewrite contains_substring.
  - apply not_true_is_false. rewrite existsb_exists.
    intros (alt_label & Hin' & Hc). apply (Halt alt_label).
    + by apply list_elem_of_In.
    + by apply contains_substring.
Qed.

Lemma matching_no_match (query : string) :
  no_match query -> matching lower store query = ∅.
Proof.
  intros Hno. unfold matching.
  enough (Hgen : forall (records : Store) (acc : gset string),
    (forall r, r ∈ records -> r ∈ store) ->
    fold_left
      (fun matching_concept_ids '(concept_id, data) =>
         if matches lower query data then matching_concept_ids ∪ {[concept_id]}
         else matching_concept_ids) records acc = acc) by by apply Hgen.
  induction records as [|[concept_id data] records IH]; intros acc Hsub; simpl; [done|].
  rewrite (no_match_matches query concept_id data Hno); [|apply Hsub; left].
  apply IH. intros r Hr. apply Hsub. by right.
Qed.

(** C10. Every query the endpoint accepts gets a graph that starts with the
    DataSource descriptor of ELSST, the node typed ["DataSource"] with the
    URN of the thesaurus as its ["@id"], and when nothing matches the graph
    is that node alone. *)
Theorem autocomplete_graph (q : string) :
  3 <= String.length q ->
  exists topics,
    autocomplete lower store q
    = Success
        (VDict [ (VStr "@context",
                  VList [ VStr "https://w3id.org/skg-if/context/skg-if.json";
                          VDict [(VStr "@base", VStr SKG_IF_BASE_URL)] ]);
                 (VStr "@graph",
                  VList (VDict [ (VStr "@id", VStr "urn:cessda:elsst-v5");
                                 (VStr "@type", VStr "DataSource");
                                 (VStr "local_identifier", VStr "elsst-v5");
                                 (VStr "name",
                                  VStr "European Language Social Science Thesaurus (ELSST) - Version 5");
                                 (VStr "url",
                                  VStr "https://thesauri.cessda.eu/elsst-5/en/") ]
                           :: topics)) ])
    /\ (no_match (lower q) -> topics = []).
Proof.
  intros Hlen. unfold autocomplete, graph_entities.
  apply Nat.ltb_ge in Hlen. rewrite Hlen.
  eexists. split; [reflexivity|].
  intros Hno. rewrite (matching_no_match _ Hno).
  unfold related. by rewrite !elements_empty.
Qed.

End Graph.

End AppFacts.

(** ** The loaders on well-typed exports *)
Module LoaderFacts.
Import Py PyFacts Loader.

(** *** Well-typed nodes and their JSON *)

(** One element of a label field: an object with an optional language tag
    and an optional value, both strings. *)
Record Label : Type := {
  language : option string;
  text : option string
}.

(** The ["@type"] member: absent, one string, or a list of strings. *)
Inductive TypeField : Type :=
  | NoType
  | OneType (t : string)
  | Types (ts : list string).

(** The broader member: absent, one object, or a list of objects; an
    object may or may not carry an identifier. *)
Inductive BroaderField : Type :=
  | NoBroader
  | OneBroader (parent : option string)
  | Broaders (parents : list (option string)).

(** A node of the graph that has an identifier; each of its other members
    may be absent. *)
Record Node : Type := {
  node_id : string;
  node_types : TypeField;
  node_pref : option (list Label);
  node_alt : option (list Label);
  node_broader : BroaderField
}.

(** A member that is there or not. *)
Definition optional (name : string) (v : option value) : list (value * value) :=
  match v with
  | Some x => [(VStr name, x)]
  | None => []
  end.

Definition label_value (l : Label) : value :=
  VDict (optional "@language" (VStr <$> language l)
         ++ optional "@value" (VStr <$> text l)).

Definition labels_field (labels : list Label) : value :=
  VList (label_value <$> labels).

Definition types_field (t : TypeField) : option value :=
  match t with
  | NoType => None
  | OneType t => Some (VStr t)
  | Types ts => Some (VList (VStr <$> ts))
  end.

Definition reference (parent : option string) : value :=
  VDict (optional "@id" (VStr <$> parent)).

Definition broader_field (b : BroaderField) : option value :=
  match b with
  | NoBroader => None
  | OneBroader parent => Some (reference parent)
  | Broaders parents => Some (VList (reference <$> parents))
  end.

Definition node_fields (n : Node) : list (value * value) :=
  (VStr "@id", VStr (node_id n))
  :: optional "@type" (types_field (node_types n))
  ++ optional SKOS_PREF_LABEL (labels_field <$> node_pref n)
  ++ optional SKOS_ALT_LABEL (labels_field <$> node_alt n)
  ++ optional SKOS_BROADER (broader_field (node_broader n)).

Definition node_value (n : Node) : value := VDict (node_fields n).

(** The export: an object whose ["@graph"] lists the nodes. *)
Definition document (nodes : list Node) : value :=
  VDict [ (VStr "@graph", VList (node_value <$> nodes)) ].

(** *** What the specification says of a node *)

(** A pair with a non-empty language tag and a non-empty value. *)
Definition usable (l : Label) : option (string * string) :=
  match language l, text l with
  | Some lang, Some val =>
      if truthy_id (Some lang) && truthy_id (Some val) then Some (lang, val) else None
  | _, _ => None
  end.

(** Preferred labels: keyed by language, a later pair overwrites. *)
Definition pref_map (labels : list Label) : dict string :=
  fold_left (fun d '(lang, val) => dict_set lang val d) (omap usable labels) [].

(** Alternative labels: grouped by language, in source order. *)
Definition alt_map (labels : list Label) : dict (list string) :=
  fold_left (fun d '(lang, val) => dict_append lang val d) (omap usable labels) [].

(** The identifier of the first broader object, if any. *)
Definition first_broader (b : BroaderField) : option string :=
  match b with
  | NoBroader | Broaders [] => None
  | OneBroader parent | Broaders (parent :: _) => parent
  end.

(** Is the node a SKOS concept? *)
Definition is_concept (n : Node) : bool :=
  match node_types n with
  | NoType => false
  | OneType t => String.eqb t SKOS_CONCEPT
  | Types ts => existsb (fun t => String.eqb t SKOS_CONCEPT) ts
  end.

(** What the loaders read from the members of a node. *)
Lemma node_get_type (n : Node) :
  get "@type" (VList []) (node_fields n)
  = default (VList []) (types_field (node_types n)).
Proof. by destruct n as [id [|t|ts] [pref|] [alt|] [|parent|parents]]. Qed.

Lemma node_get_pref (n : Node) :
  get SKOS_PREF_LABEL (VList []) (node_fields n)
  = labels_field (default [] (node_pref n)).
Proof. by destruct n as [id [|t|ts] [pref|] [alt|] [|parent|parents]]. Qed.

Lemma node_get_alt (n : Node) :
  get SKOS_ALT_LABEL (VList []) (node_fields n)
  = labels_field (default [] (node_alt n)).
Proof. by destruct n as [id [|t|ts] [pref|] [alt|] [|parent|parents]]. Qed.

Lemma node_get_broader (n : Node) :
  get SKOS_BROADER (VList []) (node_fields n)
  = default (VList []) (broader_field (node_broader n)).
Proof. by destruct n as [id [|t|ts] [pref|] [alt|] [|parent|parents]]. Qed.

(** *** Typed dictionaries as values *)

(** The items of a dictionary whose values are written by [f]. *)
Definition items {V : Type} (f : V -> value) (d : dict V) : list (value * value) :=
  map (fun '(k, v) => (VStr k, f v)) d.

Definition strings (vs : list string) : value := VList (VStr <$> vs).

Lemma assign_items {V : Type} (f : V -> value) (k : string) (v : V) (d : dict V) :
  assign (VStr k) (f v) (items f d) = items f (dict_set k v d).
Proof.
  induction d as [|[k' v'] d IH]; simpl; [done|].
  destruct (String.eqb k' k); simpl; [done | by rewrite IH].
Qed.

Lemma lookup_items {V : Type} (f : V -> value) (k : string) (d : dict V) :
  lookup (VStr k) (items f d) = f <$> dict_get k d.
Proof.
  induction d as [|[k' v'] d IH]; simpl; [done|]. by destruct (String.eqb k' k).
Qed.

Lemma setdefault_append_items (k v : string) (d : dict (list string)) :
  setdefault_append (VStr k) (VStr v) (items strings d)
  = Ok (items strings (dict_append k v d)).
Proof.
  unfold setdefault_append, dict_append. simpl. rewrite lookup_items.
  destruct (dict_get k d) as [old|]; simpl.
  - rewrite <- assign_items. unfold strings. by rewrite fmap_app.
  - by rewrite <- assign_items.
Qed.

Lemma truthy_from_option (o : option string) :
  truthy (from_option VStr VNone o) = truthy_id o.
Proof. by destruct o. Qed.

(** What the two [get] calls of a label loop read. *)
Lemma label_language (l : Label) :
  method_get (label_value l) "@language" VNone
  = Ok (from_option VStr VNone (language l)).
Proof. by destruct l as [[lang|] [val|]]. Qed.

Lemma label_text (l : Label) (default : value) :
  method_get (label_value l) "@value" default
  = Ok (from_option VStr default (text l)).
Proof. by destruct l as [[lang|] [val|]]. Qed.

(** *** The current loader on a well-typed node *)

(** The record of the current profile as the loader writes it. *)
Definition record_value (data : Server.Concept) : value :=
  VDict [ (VStr "@id", VStr (Server.cid data));
          (VStr "prefLabels", VDict (items VStr (Server.prefLabels data)));
          (VStr "altLabels", VDict (items strings (Server.altLabels data)));
          (VStr "broader", from_option VStr VNone (Server.broader data)) ].

(** The record the specification gives a node (steps 3 to 5). *)
Definition concept_of (n : Node) : Server.Concept :=
  {| Server.cid := node_id n;
     Server.prefLabels := pref_map (default [] (node_pref n));
     Server.altLabels := alt_map (default [] (node_alt n));
     Server.broader := first_broader (node_broader n) |}.

Lemma pref_step_usable (l : Label) (d : dict string) :
  Server.pref_step (items VStr d) (label_value l)
  = Ok (items VStr (match usable l with
                    | Some (lang, val) => dict_set lang val d
                    | None => d
                    end)).
Proof.
  unfold Server.pref_step. rewrite label_language, label_text. simpl.
  rewrite !truthy_from_option. unfold usable.
  destruct (language l) as [lang|], (text l) as [val|]; simpl; try done.
  - destruct (negb (lang =? "")%string), (negb (val =? "")%string); simpl; try done.
    unfold setitem. simpl. by rewrite (assign_items VStr).
  - by destruct (negb (lang =? "")%string).
Qed.

Lemma pref_loop (labels : list Label) (d : dict string) :
  for_each Server.pref_step (label_value <$> labels) (items VStr d)
  = Ok (items VStr (fold_left (fun d '(lang, val) => dict_set lang val d)
                              (omap usable labels) d)).
Proof.
  revert d. induction labels as [|l labels IH]; intros d; simpl; [done|].
  rewrite pref_step_usable. simpl. rewrite IH.
  by destruct (usable l) as [[lang val]|].
Qed.

Lemma alt_step_usable (l : Label) (d : dict (list string)) :
  Server.alt_step (items strings d) (label_value l)
  = Ok (items strings (match usable l with
                       | Some (lang, val) => dict_append lang val d
                       | None => d
                       end)).
Proof.
  unfold Server.alt_step. rewrite label_language, label_text. simpl.
  rewrite !truthy_from_option. unfold usable.
  destruct (language l) as [lang|], (text l) as [val|]; simpl; try done.
  - destruct (negb (lang =? "")%string), (negb (val =? "")%string); simpl; try done.
    apply setdefault_append_items.
  - by destruct (negb (lang =? "")%string).
Qed.

Lemma alt_loop (labels : list Label) (d : dict (list string)) :
  for_each Server.alt_step (label_value <$> labels) (items strings d)
  = Ok (items strings (fold_left (fun d '(lang, val) => dict_append lang val d)
                                 (omap usable labels) d)).
Proof.
  revert d. induction labels as [|l labels IH]; intros d; simpl; [done|].
  rewrite alt_step_usable. simpl. rewrite IH.
  by destruct (usable l) as [[lang val]|].
Qed.

Lemma broader_of_node (n : Node) :
  broader_of (node_fields n)
  = Ok (from_option VStr VNone (first_broader (node_broader n))).
Proof.
  unfold broader_of. rewrite node_get_broader.
  destruct (node_broader n) as [|[parent|]|[|[parent|] rest]]; reflexivity.
Qed.

Lemma existsb_types (ts : list string) :
  existsb (fun x => eq_str x SKOS_CONCEPT) (VStr <$> ts)
  = existsb (fun t => (t =? SKOS_CONCEPT)%string) ts.
Proof.
  induction ts as [|t ts IH]; [done|].
  rewrite fmap_cons. cbn [existsb eq_str]. by rewrite IH.
Qed.

Lemma concept_node_value (n : Node) :
  concept_node (node_value n)
  = Ok (if is_concept n then Some (node_fields n) else None).
Proof.
  unfold concept_node, node_value, is_concept.
  change (has "@id" (node_fields n)) with true. cbn iota.
  rewrite node_get_type.
  destruct (node_types n) as [|t|ts]; cbn [types_field default from_option id];
    cbn [contains_str mbind result_bind].
  - done.
  - cbn [existsb eq_str]. rewrite orb_false_r. by destruct (t =? SKOS_CONCEPT)%string.
  - rewrite existsb_types. by destruct (existsb _ _).
Qed.

(** The current loader keeps of a well-typed node what the specification
    says. *)
Lemma keep_node (n : Node) :
  Server.keep (node_fields n) = Ok (record_value (concept_of n)).
Proof.
  unfold Server.keep.
  rewrite broader_of_node, node_get_pref, node_get_alt.
  change (get "@id" VNone (node_fields n)) with (VStr (node_id n)).
  unfold labels_field. cbn [iterate mbind result_bind].
  pose proof (pref_loop (default [] (node_pref n)) []) as Hpref.
  pose proof (alt_loop (default [] (node_alt n)) []) as Halt.
  change (items VStr []) with (@nil (value * value)) in Hpref.
  change (items strings []) with (@nil (value * value)) in Halt.
  rewrite Hpref. cbn [mbind result_bind]. rewrite Halt. reflexivity.
Qed.

(** The loop over the graph, for a loop body that keeps [of_node n] of
    a well-typed node [n]. *)
Section Graph.

Context {R : Type} (keep : list (value * value) -> result value).
Context (to_value : R -> value) (of_node : Node -> R).
Hypothesis keep_of_node :
  forall n, keep (node_fields n) = Ok (to_value (of_node n)).

(** The store the specification gives a graph (steps 2 and 6). *)
Definition store_from (store : dict R) (nodes : list Node) : dict R :=
  fold_left
    (fun store n =>
       if is_concept n then dict_set (node_id n) (of_node n) store else store)
    nodes store.

Lemma process_graph_nodes (nodes : list Node) (store : dict R) :
  for_each
    (fun processed_data concept =>
       node ← concept_node concept;
       match node with
       | None => Ok processed_data
       | Some fields =>
           record ← keep fields;
           setitem (get "@id" VNone fields) record processed_data
       end)
    (node_value <$> nodes) (items to_value store)
  = Ok (items to_value (store_from store nodes)).
Proof.
  revert store. induction nodes as [|n nodes IH]; intros store; [done|].
  rewrite fmap_cons. cbn [for_each store_from fold_left].
  rewrite concept_node_value. cbn [mbind result_bind].
  destruct (is_concept n).
  - rewrite keep_of_node. cbn [mbind result_bind].
    change (get "@id" VNone (node_fields n)) with (VStr (node_id n)).
    unfold setitem. cbn [hashable]. rewrite (assign_items to_value).
    cbn [mbind result_bind]. apply IH.
  - cbn [mbind result_bind]. apply IH.
Qed.

(** On a well-typed export the loader does not raise: it returns the store
    the specification describes and prints its size. *)
Lemma load_typed (loaded : nat -> string) (filepath : string) (nodes : list Node) :
  load keep loaded filepath (Document (document nodes))
  = ([loaded (length (store_from [] nodes))],
     Ok (VDict (items to_value (store_from [] nodes)))).
Proof.
  unfold load, document. cbn [read find_graph lookup key_eqb String.eqb Ascii.eqb Bool.eqb].
  unfold process_graph. cbn [iterate mbind result_bind].
  pose proof (process_graph_nodes nodes []) as Hloop.
  change (items to_value []) with (@nil (value * value)) in Hloop.
  rewrite Hloop. unfold items at 1. by rewrite length_map.
Qed.

End Graph.

(** *** The legacy loader on a well-typed node *)

(** The value of the first pair whose language is ["en"], or the empty
    string. *)
Definition english_of (labels : list Label) : string :=
  default ""
    (head (omap (fun l => if decide (language l = Some "en")
                          then Some (default "" (text l)) else None)
                labels)).

(** The non-empty values, whatever their language. *)
Definition values_of (labels : list Label) : list string :=
  omap (fun l => match text l with
                 | Some val => if truthy_id (Some val) then Some val else None
                 | None => None
                 end)
       labels.

Definition legacy_concept_of (n : Node) : App.Concept :=
  {| App.cid := node_id n;
     App.prefLabel := english_of (default [] (node_pref n));
     App.altLabel := values_of (default [] (node_alt n));
     App.broader := first_broader (node_broader n) |}.

Lemma english_label_typed (labels : list Label) :
  App.english_label (label_value <$> labels) = Ok (VStr (english_of labels)).
Proof.
  induction labels as [|l labels IH]; [done|].
  rewrite fmap_cons. cbn [App.english_label]. rewrite label_language.
  cbn [mbind result_bind]. unfold english_of. cbn [omap list_omap].
  destruct (language l) as [lang|] eqn:Hlang; cbn [from_option eq_str].
  - destruct (String.eqb_spec lang "en") as [->|Hne].
    + rewrite label_text. rewrite decide_True by done. by destruct (text l).
    + rewrite decide_False by congruence. apply IH.
  - rewrite decide_False by done. apply IH.
Qed.

Lemma legacy_alt_step (l : Label) (kept : list string) :
  App.alt_step (VStr <$> kept) (label_value l)
  = Ok (VStr <$> (kept ++ values_of [l])).
Proof.
  unfold App.alt_step. rewrite label_text. cbn [mbind result_bind].
  unfold values_of. cbn [omap list_omap].
  destruct (text l) as [val|]; cbn [from_option truthy truthy_id].
  - destruct (negb (val =? "")%string); cbn [option_bind].
    + by rewrite fmap_app.
    + by rewrite app_nil_r.
  - by rewrite app_nil_r.
Qed.

Lemma legacy_alt_loop (labels : list Label) (kept : list string) :
  for_each App.alt_step (label_value <$> labels) (VStr <$> kept)
  = Ok (VStr <$> (kept ++ values_of labels)).
Proof.
  revert kept. induction labels as [|l labels IH]; intros kept.
  - simpl. by rewrite app_nil_r.
  - rewrite fmap_cons. cbn [for_each]. rewrite legacy_alt_step.
    cbn [mbind result_bind]. rewrite IH, <- app_assoc.
    unfold values_of. by rewrite <- omap_app.
Qed.

Lemma legacy_keep_node (n : Node) :
  App.keep (node_fields n) = Ok (AppFacts.record_value (legacy_concept_of n)).
Proof.
  unfold App.keep.
  rewrite broader_of_node, node_get_pref, node_get_alt.
  change (get "@id" VNone (node_fields n)) with (VStr (node_id n)).
  unfold labels_field. cbn [iterate mbind result_bind].
  rewrite english_label_typed. cbn [mbind result_bind].
  pose proof (legacy_alt_loop (default [] (node_alt n)) []) as Halt.
  change (VStr <$> []) with (@nil value) in Halt.
  rewrite Halt. reflexivity.
Qed.

(** *** Last pair wins, and what is kept is not empty *)

(** The values paired with [lang], in order. *)
Definition values_for (lang : string) (pairs : list (string * string)) : list string :=
  omap (fun '(l, val) => if decide (l = lang) then Some val else None) pairs.

Lemma fold_set_get (lang : string) (pairs : list (string * string)) (d : dict string) :
  dict_get lang (fold_left (fun d '(l, val) => dict_set l val d) pairs d)
  = match last (values_for lang pairs) with
    | Some val => Some val
    | None => dict_get lang d
    end.
Proof.
  revert d. induction pairs as [|[l val] pairs IH]; intros d; [done|].
  cbn [fold_left]. rewrite IH. unfold values_for. cbn [omap list_omap].
  fold (values_for lang pairs).
  destruct (decide (l = lang)) as [->|Hne]; cbn [option_bind].
  - rewrite dict_get_set_eq. destruct (values_for lang pairs) as [|x xs]; [done|].
    change (last (val :: x :: xs)) with (last (x :: xs)).
    destruct (last (x :: xs)) eqn:Hlast; [done|]. by apply last_None in Hlast.
  - by rewrite dict_get_set_ne.
Qed.

Lemma dict_set_keys {V : Type} (k : string) (v : V) (d : dict V) :
  (dict_set k v d).*1 = if decide (k ∈ d.*1) then d.*1 else d.*1 ++ [k].
Proof.
  induction d as [|[k' v'] d IH]; [done|].
  cbn [dict_set]. destruct (String.eqb_spec k' k) as [->|Hne].
  - rewrite decide_True; [done | left].
  - cbn [fmap list_fmap fst]. rewrite IH.
    destruct (decide (k ∈ d.*1)) as [Hin|Hout].
    + rewrite decide_True; [done | by right].
    + rewrite decide_False; [done|]. cbn. by intros [?|?]%elem_of_cons.
Qed.

Lemma dict_set_NoDup {V : Type} (k : string) (v : V) (d : dict V) :
  NoDup d.*1 -> NoDup (dict_set k v d).*1.
Proof.
  intros Hd. rewrite dict_set_keys. destruct (decide (k ∈ d.*1)); [done|].
  apply NoDup_app. split_and!; [done | | apply NoDup_singleton].
  intros x Hx ->%list_elem_of_singleton. done.
Qed.

Lemma dict_set_elem {V : Type} (k k' : string) (v v' : V) (d : dict V) :
  (k', v') ∈ dict_set k v d -> (k', v') ∈ d \/ (k' = k /\ v' = v).
Proof.
  induction d as [|[k0 v0] d IH]; cbn [dict_set].
  - intros [= -> ->]%list_elem_of_singleton. by right.
  - destruct (String.eqb_spec k0 k) as [->|Hne].
    + intros [[= -> ->]|H]%elem_of_cons; [by right | left; by right].
    + intros [[= -> ->]|H]%elem_of_cons; [left; left|].
      destruct (IH H); [left; by right | by right].
Qed.

Lemma usable_Some (l : Label) (lang val : string) :
  usable l = Some (lang, val) ->
  language l = Some lang /\ text l = Some val /\ lang <> "" /\ val <> "".
Proof.
  unfold usable. destruct (language l) as [lang'|], (text l) as [val'|]; try done.
  simpl. destruct (String.eqb_spec lang' ""), (String.eqb_spec val' ""); simpl; try done.
  by intros [= <- <-].
Qed.

(** A pair is dropped exactly when its language or its value is missing
    or empty. *)
Lemma usable_None (l : Label) :
  usable l = None
  <-> language l = None \/ language l = Some "" \/ text l = None \/ text l = Some "".
Proof.
  unfold usable. destruct (language l) as [lang|], (text l) as [val|]; simpl;
    try (split; [eauto | done]).
  destruct (String.eqb_spec lang "") as [->|Hl], (String.eqb_spec val "") as [->|Hv];
    simpl; split; eauto; try done.
  intros [?|[?|[?|?]]]; congruence.
Qed.

Lemma pref_map_pairs (labels : list Label) (lang val : string) :
  (lang, val) ∈ pref_map labels -> lang <> "" /\ val <> "".
Proof.
  unfold pref_map.
  enough (Hgen : forall pairs d,
    Forall (fun p => p.1 <> "" /\ p.2 <> "") pairs ->
    Forall (fun p => p.1 <> "" /\ p.2 <> "") d ->
    Forall (fun p => p.1 <> "" /\ p.2 <> "")
           (fold_left (fun d '(l, v) => dict_set l v d) pairs d)).
  { intros Hin. eapply (proj1 (Forall_forall _ _) (Hgen (omap usable labels) [] _ _)) in Hin.
    exact Hin. Unshelve.
    - apply Forall_forall. intros [l v] (lbl & _ & Hu)%list_elem_of_omap.
      apply usable_Some in Hu. naive_solver.
    - constructor. }
  induction pairs as [|[l v] pairs IH]; intros d Hpairs Hd; [done|].
  cbn [fold_left]. inversion Hpairs; subst. apply IH; [done|].
  apply Forall_forall. intros [l' v'] [Hin|[-> ->]]%dict_set_elem; [|done].
  by apply (proj1 (Forall_forall _ _) Hd) in Hin.
Qed.

Lemma pref_map_NoDup (labels : list Label) : NoDup (pref_map labels).*1.
Proof.
  unfold pref_map.
  enough (Hgen : forall pairs (d : dict string), NoDup d.*1 ->
    NoDup (fold_left (fun d '(l, v) => dict_set l v d) pairs d).*1)
    by (apply Hgen; constructor).
  induction pairs as [|[l v] pairs IH]; intros d Hd; [done|].
  cbn [fold_left]. by apply IH, dict_set_NoDup.
Qed.

Lemma dict_append_elem {A : Type} (k k' : string) (x : A) (xs : list A)
    (d : dict (list A)) :
  (k', xs) ∈ dict_append k x d ->
  (k', xs) ∈ d \/ (k' = k /\ exists old, xs = old ++ [x]
                               /\ (old = [] \/ (k, old) ∈ d)).
Proof.
  unfold dict_append. destruct (dict_get k d) as [old|] eqn:Hget.
  - intros [H|[-> ->]]%dict_set_elem; [by left|]. right. split; [done|].
    exists old. split; [done|]. right. by apply dict_get_Some_elem.
  - intros [H|[-> ->]]%dict_set_elem; [by left|]. right. split; [done|].
    exists []. split; [done | by left].
Qed.

Lemma alt_map_pairs (labels : list Label) (lang : string) (vals : list string) :
  (lang, vals) ∈ alt_map labels ->
  lang <> "" /\ vals <> [] /\ forall val, val ∈ vals -> val <> "".
Proof.
  unfold alt_map.
  set (good := fun p : string * list string =>
                 p.1 <> "" /\ p.2 <> [] /\ forall val, val ∈ p.2 -> val <> "").
  enough (Hgen : forall pairs (d : dict (list string)),
    Forall (fun p : string * string => p.1 <> "" /\ p.2 <> "") pairs ->
    Forall good d ->
    Forall good (fold_left (fun d '(l, v) => dict_append l v d) pairs d)).
  { intros Hin. eapply (proj1 (Forall_forall _ _) (Hgen (omap usable labels) [] _ _)) in Hin.
    exact Hin. Unshelve.
    - apply Forall_forall. intros [l v] (lbl & _ & Hu)%list_elem_of_omap.
      apply usable_Some in Hu. naive_solver.
    - constructor. }
  induction pairs as [|[l v] pairs IH]; intros d Hpairs Hd; [done|].
  cbn [fold_left]. inversion Hpairs as [|? ? [Hl Hv] Hrest]; subst. apply IH; [done|].
  apply Forall_forall.
  intros [l' vs'] [Hin | [-> (old & -> & Hold)]]%dict_append_elem.
  - by apply (proj1 (Forall_forall _ _) Hd) in Hin.
  - unfold good. cbn [fst snd]. split_and!; [done | by destruct old |].
    intros val [Hval | ->%list_elem_of_singleton]%elem_of_app; [|done].
    destruct Hold as [-> | Hin]; [by apply elem_of_nil in Hval|].
    apply (proj1 (Forall_forall _ _) Hd) in Hin. destruct Hin as (_ & _ & Hall).
    by apply Hall.
Qed.

(** *** Any JSON at all: what is kept is truthy *)

Lemma assign_elem (key v k w : value) (members : list (value * value)) :
  (k, w) ∈ assign key v members ->
  (k, w) ∈ members \/ (w = v /\ (k = key \/ k ∈ members.*1)).
Proof.
  induction members as [|[k0 v0] members IH]; cbn [assign].
  - intros [= -> ->]%list_elem_of_singleton. right. split; [done | by left].
  - destruct (key_eqb k0 key).
    + intros [[= -> ->] | H]%elem_of_cons.
      * right. split; [done|]. right. left.
      * left. by right.
    + intros [[= -> ->] | H]%elem_of_cons; [left; left|].
      destruct (IH H) as [Hin | [-> [-> | Hin]]].
      * left. by right.
      * right. split; [done | by left].
      * right. split; [done|]. right. by right.
Qed.

(** Every language kept is truthy and so is every label. *)
Definition kept_pairs (members : list (value * value)) : Prop :=
  Forall (fun member => truthy member.1 = true /\ truthy member.2 = true) members.

(** Whatever the label field holds, if the loop over it ends without an
    exception, it has kept nothing that is [None], empty or zero. *)
Lemma pref_loop_truthy (labels : list value) (before after : list (value * value)) :
  for_each Server.pref_step labels before = Ok after ->
  kept_pairs before -> kept_pairs after.
Proof.
  revert before. induction labels as [|label labels IH]; intros before; cbn [for_each].
  - by intros [= ->].
  - destruct (Server.pref_step before label) as [next|e] eqn:Hstep; [|done].
    cbn [mbind result_bind]. intros Hrest Hbefore. apply (IH next Hrest).
    unfold Server.pref_step in Hstep.
    destruct label as [| | | | |members]; try done.
    cbn [method_get mbind result_bind] in Hstep.
    destruct (truthy (get "@language" VNone members)) eqn:Hlang;
      destruct (truthy (get "@value" VNone members)) eqn:Hval;
      cbn [andb] in Hstep; try (by injection Hstep as <-).
    unfold setitem in Hstep. destruct (hashable _); [|done]. injection Hstep as <-.
    apply Forall_forall. intros [k w] [Hin | [-> [-> | Hin]]]%assign_elem.
    + by apply (proj1 (Forall_forall _ _) Hbefore) in Hin.
    + done.
    + apply list_elem_of_fmap in Hin as [[k' w'] [-> Hin]].
      apply (proj1 (Forall_forall _ _) Hbefore) in Hin. by destruct Hin.
Qed.

Lemma lookup_elem (key v : value) (members : list (value * value)) :
  lookup key members = Some v -> exists k, (k, v) ∈ members.
Proof.
  induction members as [|[k0 v0] members IH]; cbn [lookup]; [done|].
  destruct (key_eqb k0 key).
  - intros [= ->]. exists k0. left.
  - intros [k Hin]%IH. exists k. by right.
Qed.

(** Every language kept is truthy and has a list of truthy labels. *)
Definition kept_groups (members : list (value * value)) : Prop :=
  Forall (fun member =>
            truthy member.1 = true
            /\ exists vals, member.2 = VList vals
                            /\ Forall (fun val => truthy val = true) vals)
         members.

Lemma alt_loop_truthy (labels : list value) (before after : list (value * value)) :
  for_each Server.alt_step labels before = Ok after ->
  kept_groups before -> kept_groups after.
Proof.
  revert before. induction labels as [|label labels IH]; intros before; cbn [for_each].
  - by intros [= ->].
  - destruct (Server.alt_step before label) as [next|e] eqn:Hstep; [|done].
    cbn [mbind result_bind]. intros Hrest Hbefore. apply (IH next Hrest).
    unfold Server.alt_step in Hstep.
    destruct label as [| | | | |members]; try done.
    cbn [method_get mbind result_bind] in Hstep.
    destruct (truthy (get "@language" VNone members)) eqn:Hlang;
      destruct (truthy (get "@value" VNone members)) eqn:Hval;
      cbn [andb] in Hstep; try (by injection Hstep as <-).
    unfold setdefault_append in Hstep. destruct (hashable _); [|done].
    assert (Hgroup : forall vals,
              Forall (fun val => truthy val = true) vals ->
              kept_groups (assign (get "@language" VNone members) (VList vals) before)).
    { intros vals Hvals. apply Forall_forall.
      intros [k w] [Hin | [-> [-> | Hin]]]%assign_elem.
      - by apply (proj1 (Forall_forall _ _) Hbefore) in Hin.
      - split; [done | by exists vals].
      - split; [|by exists vals].
        apply list_elem_of_fmap in Hin as [[k' w'] [-> Hin]].
        apply (proj1 (Forall_forall _ _) Hbefore) in Hin. by destruct Hin. }
    destruct (lookup _ before) as [[| | | |old|]|] eqn:Hold; try done;
      injection Hstep as <-; apply Hgroup.
    + apply lookup_elem in Hold as [k Hin].
      apply (proj1 (Forall_forall _ _) Hbefore) in Hin as [_ (vals & [= <-] & Hvals)].
      apply Forall_app. split; [done | by constructor].
    + by constructor.
Qed.

(** Whatever the node holds, a record the loader builds keeps truthy
    languages and truthy labels only. *)
Lemma keep_truthy (fields : list (value * value)) (record : value) :
  Server.keep fields = Ok record ->
  exists pref alt,
    field "prefLabels" record = Some (VDict pref)
    /\ field "altLabels" record = Some (VDict alt)
    /\ kept_pairs pref /\ kept_groups alt.
Proof.
  unfold Server.keep.
  destruct (iterate (get SKOS_PREF_LABEL (VList []) fields)) as [labels|]; [|done].
  cbn [mbind result_bind].
  destruct (for_each Server.pref_step labels []) as [pref|] eqn:Hpref; [|done].
  cbn [mbind result_bind].
  destruct (iterate (get SKOS_ALT_LABEL (VList []) fields)) as [labels'|]; [|done].
  cbn [mbind result_bind].
  destruct (for_each Server.alt_step labels' []) as [alt|] eqn:Halt; [|done].
  cbn [mbind result_bind].
  destruct (broader_of fields) as [broader_id|]; [|done]. cbn [mbind result_bind].
  intros [= <-]. exists pref, alt. split_and!; [done | done | |].
  - apply (pref_loop_truthy _ _ _ Hpref). constructor.
  - apply (alt_loop_truthy _ _ _ Halt). constructor.
Qed.

(** *** The loaders as a whole *)

(** The store each loader returns for a well-typed export. *)
Lemma load_document (filepath : string) (nodes : list Node) :
  Server.load_elsst_data filepath (Document (document nodes))
  = ([ "Loaded " +:+ pretty (length (store_from concept_of [] nodes))
       +:+ " concepts with multilingual labels" ],
     Ok (VDict (items record_value (store_from concept_of [] nodes)))).
Proof. apply (load_typed Server.keep record_value concept_of keep_node). Qed.

Lemma legacy_load_document (filepath : string) (nodes : list Node) :
  App.load_elsst_data filepath (Document (document nodes))
  = ([ "Loaded " +:+ pretty (length (store_from legacy_concept_of [] nodes))
       +:+ " concepts" ],
     Ok (VDict (items AppFacts.record_value (store_from legacy_concept_of [] nodes)))).
Proof.
  apply (load_typed App.keep AppFacts.record_value legacy_concept_of legacy_keep_node).
Qed.

(** A top level that is neither a list nor an object with ["@graph"]. *)
Definition no_graph (data : value) : Prop :=
  match data with
  | VList _ => False
  | VDict members => has "@graph" members = false
  | _ => True
  end.

(** A graph element the loop passes over: anything but an object, an object
    without ["@id"], or an object whose ["@type"] is absent, a string other
    than the Concept URI, or a list that does not hold it. *)
Definition passed_over (v : value) : Prop :=
  match v with
  | VDict fields =>
      has "@id" fields = false
      \/ match lookup (VStr "@type") fields with
         | None => True
         | Some (VStr t) => t <> SKOS_CONCEPT
         | Some (VList ts) => existsb (fun x => eq_str x SKOS_CONCEPT) ts = false
         | Some _ => False
         end
  | _ => True
  end.

(** A value of ["@graph"] in which the loop finds no concept: a string (the
    loop runs over its characters), an object (over its keys), or a list of
    elements it passes over. *)
Definition inert (graph : value) : Prop :=
  match graph with
  | VStr _ => True
  | VDict members => Forall passed_over members.*1
  | VList nodes => Forall passed_over nodes
  | _ => False
  end.

(** An element of a top-level list that brings no concept: an object
    without ["@graph"] or with an inert one, a string that does not contain
    the text [@graph], a list that does not hold the string. *)
Definition quiet (item : value) : Prop :=
  match item with
  | VDict members =>
      match lookup (VStr "@graph") members with
      | None => True
      | Some graph => inert graph
      end
  | VStr s => contains "@graph" s = false
  | VList elements => existsb (fun x => eq_str x "@graph") elements = false
  | _ => False
  end.

(** [null], a boolean or a number: what can neither be looped over nor
    searched with [in]. *)
Definition scalar (v : value) : Prop :=
  match v with
  | VNone | VBool _ | VInt _ => True
  | _ => False
  end.

Lemma passed_over_skipped (v : value) : passed_over v -> concept_node v = Ok None.
Proof.
  destruct v as [| | | | |fields]; try done. unfold passed_over, concept_node, get.
  destruct (has "@id" fields); [|done]. intros [Hid | Htype]; [done|].
  destruct (lookup (VStr "@type") fields) as [[| | |t|ts|]|]; try done.
  - cbn [contains_str existsb eq_str mbind result_bind].
    by destruct (String.eqb_spec t SKOS_CONCEPT).
  - cbn [contains_str mbind result_bind]. by rewrite Htype.
Qed.

Lemma chars_passed_over (s : string) : Forall passed_over (chars s).
Proof. induction s as [|c s IH]; cbn [chars]; by constructor. Qed.

Lemma inert_iterate (graph : value) :
  inert graph -> exists nodes, iterate graph = Ok nodes /\ Forall passed_over nodes.
Proof.
  destruct graph as [| | |s|nodes|members]; try done; intros Hgraph.
  - exists (chars s). split; [done | apply chars_passed_over].
  - by exists nodes.
  - by exists (map fst members).
Qed.

(** One turn of the loop that gathers the graphs of a top-level list. *)
Definition gather (graph : list value) (item : value) : result (list value) :=
  present ← contains_str "@graph" item;
  if present : bool then
    member ← getitem_str item "@graph";
    more ← iterate member;
    Ok (graph ++ more)
  else Ok graph.

Lemma find_graph_list (items : list value) :
  find_graph (VList items) = (graph ← for_each gather items []; Ok (Some (VList graph))).
Proof. reflexivity. Qed.

Lemma gather_quiet_step (graph : list value) (item : value) :
  quiet item ->
  Forall passed_over graph ->
  exists graph', gather graph item = Ok graph' /\ Forall passed_over graph'.
Proof.
  intros Hitem Hgraph. unfold quiet in Hitem. unfold gather.
  destruct item as [| | |s|elements|members]; try done;
    cbn [contains_str mbind result_bind].
  - rewrite Hitem. by exists graph.
  - rewrite Hitem. by exists graph.
  - unfold has, getitem_str.
    destruct (lookup (VStr "@graph") members) as [member|]; cbn [mbind result_bind];
      [|by exists graph].
    destruct (inert_iterate member Hitem) as (more & -> & Hmore). cbn [mbind result_bind].
    exists (graph ++ more). split; [done | by apply Forall_app].
Qed.

Lemma gather_quiet (items : list value) (graph : list value) :
  Forall quiet items ->
  Forall passed_over graph ->
  exists graph', for_each gather items graph = Ok graph' /\ Forall passed_over graph'.
Proof.
  intros Hitems. revert graph.
  induction Hitems as [|item items Hitem _ IH]; intros graph Hgraph; [by exists graph|].
  cbn [for_each].
  destruct (gather_quiet_step graph item Hitem Hgraph) as (graph' & -> & Hgraph').
  cbn [mbind result_bind]. by apply IH.
Qed.

(** Gathering raises nothing but [TypeError]. *)
Lemma gather_TypeError (graph : list value) (item : value) (e : exn) :
  gather graph item = Raise e -> e = TypeError.
Proof.
  unfold gather. destruct item as [| | |s|elements|members];
    cbn [contains_str mbind result_bind]; try (by intros [= <-]).
  - destruct (contains "@graph" s); [|done]. by intros [= <-].
  - destruct (existsb _ elements); [|done]. by intros [= <-].
  - unfold has, getitem_str.
    destruct (lookup (VStr "@graph") members) as [member|]; [|done].
    cbn [mbind result_bind]. destruct member; cbn [iterate mbind result_bind];
      by intros [= <-].
Qed.

Lemma gather_scalar (items : list value) (graph : list value) :
  Exists scalar items -> for_each gather items graph = Raise TypeError.
Proof.
  intros Hitems. revert graph.
  induction Hitems as [item items Hitem | item items _ IH]; intros graph; cbn [for_each].
  - by destruct item.
  - destruct (gather graph item) as [graph'|e] eqn:Hstep; cbn [mbind result_bind].
    + apply IH.
    + by rewrite (gather_TypeError _ _ _ Hstep).
Qed.

Section Degraded.

Context (keep : list (value * value) -> result value) (loaded : nat -> string).

Lemma load_missing (filepath : string) :
  load keep loaded filepath Missing
  = ([ "ERROR: Data file not found at '" +:+ filepath +:+ "'.";
       "Please download the ELSST JSON-LD export and place it in the correct path." ],
     Ok (VDict [])).
Proof. reflexivity. Qed.

Lemma load_malformed (filepath : string) :
  load keep loaded filepath Malformed
  = ([ "ERROR: Could not decode JSON from '" +:+ filepath
       +:+ "'. The file might be corrupt." ],
     Ok (VDict [])).
Proof. reflexivity. Qed.

Lemma load_failing (filepath : string) (e : exn) :
  e <> FileNotFoundError -> e <> JSONDecodeError ->
  load keep loaded filepath (Failing e) = ([], Raise e).
Proof. by destruct e. Qed.

Lemma load_no_graph (filepath : string) (data : value) :
  no_graph data ->
  load keep loaded filepath (Document data)
  = (["No @graph found in JSON-LD"], Ok (VDict [])).
Proof.
  unfold load, no_graph, has.
  destruct data as [| | | |items|members]; try done.
  cbn [read find_graph]. by destruct (lookup (VStr "@graph") members).
Qed.

(** The loop over a graph without concepts stores nothing. *)
Lemma loop_passed_over (nodes : list value) (store : list (value * value)) :
  Forall passed_over nodes ->
  for_each
    (fun processed_data concept =>
       node ← concept_node concept;
       match node with
       | None => Ok processed_data
       | Some fields =>
           record ← keep fields;
           setitem (get "@id" VNone fields) record processed_data
       end)
    nodes store
  = Ok store.
Proof.
  induction 1 as [|node nodes Hnode _ IH]; [done|].
  cbn [for_each]. rewrite (passed_over_skipped node Hnode). cbn [mbind result_bind].
  apply IH.
Qed.

Lemma process_inert (graph : value) :
  inert graph -> process_graph keep graph = Ok [].
Proof.
  intros (nodes & Hnodes & Hover)%inert_iterate. unfold process_graph.
  rewrite Hnodes. cbn [mbind result_bind]. by apply loop_passed_over.
Qed.

Lemma load_inert (filepath : string) (members : list (value * value)) (graph : value) :
  lookup (VStr "@graph") members = Some graph ->
  inert graph ->
  load keep loaded filepath (Document (VDict members)) = ([loaded 0], Ok (VDict [])).
Proof.
  intros Hgraph Hinert. unfold load. cbn [read find_graph]. rewrite Hgraph.
  by rewrite (process_inert graph Hinert).
Qed.

Lemma load_quiet (filepath : string) (items : list value) :
  Forall quiet items ->
  load keep loaded filepath (Document (VList items)) = ([loaded 0], Ok (VDict [])).
Proof.
  intros Hitems. unfold load. cbn [read]. rewrite find_graph_list.
  destruct (gather_quiet items [] Hitems) as (graph & -> & Hgraph); [constructor|].
  cbn [mbind result_bind]. by rewrite (process_inert (VList graph) Hgraph).
Qed.

Lemma load_scalar_graph (filepath : string) (members : list (value * value))
    (graph : value) :
  lookup (VStr "@graph") members = Some graph ->
  scalar graph ->
  load keep loaded filepath (Document (VDict members)) = ([], Raise TypeError).
Proof.
  intros Hgraph Hscalar. unfold load. cbn [read find_graph]. rewrite Hgraph.
  by destruct graph.
Qed.

Lemma load_scalar_item (filepath : string) (items : list value) :
  Exists scalar items ->
  load keep loaded filepath (Document (VList items)) = ([], Raise TypeError).
Proof.
  intros Hitems. unfold load. cbn [read]. rewrite find_graph_list.
  by rewrite (gather_scalar items [] Hitems).
Qed.

End Degraded.


(** C5, as the code has it.  The current loader keeps, for a well-typed
    node, a preferred-label map in which no language occurs twice and each
    language has the value of the last pair of that language among the pairs
    whose language and value are both non-empty.  The legacy loader keeps
    one label: the value of the first pair whose language is ["en"]. *)
Theorem pref_label_choice (n : Node) :
  (exists record d,
     Server.keep (node_fields n) = Ok record
     /\ field "prefLabels" record = Some (VDict (items VStr d))
     /\ NoDup d.*1
     /\ forall lang,
          dict_get lang d
          = last (values_for lang (omap usable (default [] (node_pref n)))))
  /\ (exists record,
        App.keep (node_fields n) = Ok record
        /\ field "prefLabel" record
           = Some (VStr (english_of (default [] (node_pref n))))).
Proof.
  split.
  - exists (record_value (concept_of n)), (pref_map (default [] (node_pref n))).
    split_and!; [apply keep_node | done | apply pref_map_NoDup |].
    intros lang. unfold pref_map. rewrite fold_set_get. by destruct (last _).
  - exists (AppFacts.record_value (legacy_concept_of n)).
    split; [apply legacy_keep_node | done].
Qed.

(** The node with another preferred-label field, or another
    alternative-label field. *)
Definition with_pref (n : Node) (labels : list Label) : Node :=
  {| node_id := node_id n; node_types := node_types n; node_pref := Some labels;
     node_alt := node_alt n; node_broader := node_broader n |}.

Definition with_alt (n : Node) (labels : list Label) : Node :=
  {| node_id := node_id n; node_types := node_types n; node_pref := node_pref n;
     node_alt := Some labels; node_broader := node_broader n |}.

Lemma omap_usable_drop (before after : list Label) (l : Label) :
  usable l = None ->
  omap usable (before ++ l :: after) = omap usable (before ++ after).
Proof. intros Hl. rewrite !omap_app. cbn [omap list_omap]. by rewrite Hl. Qed.


End LoaderFacts.

(** ** Single-topic lookup (current profile) *)
Module TopicFacts.
Import Py PyFacts Server.

(** The members of a JSON object other than the one called [name]. *)
Definition without (name : string) (v : value) : value :=
  match v with
  | VDict members =>
      VDict (filter (fun member => key_eqb member.1 (VStr name) = false) members)
  | _ => v
  end.

(** C4, as the code has it.  [topic_single] answers 404 exactly when the id
    is not a key of the store; for a key it answers one graph item with the
    local identifier, the entity-type tag and the whole preferred-label map
    of the record, that is the flat-result item without its ["identifiers"]
    member, in a ["@context"]/["@graph"] envelope. *)
Theorem topic_single_lookup (store : Store) (topic_id : string) :
  ((exists detail, topic_single store topic_id = HTTPException 404 detail)
   <-> dict_get topic_id store = None)
  /\ forall data,
       dict_get topic_id store = Some data ->
       topic_single store topic_id
       = Success
           (VDict [ (VStr "@context",
                     VList [ VStr SKG_IF_CONTEXT_URL;
                             VDict [(VStr "@base", VStr SKG_IF_BASE_URL)] ]);
                    (VStr "@graph",
                     VList [ without "identifiers" (format_topic_for_response data) ]) ])
       /\ without "identifiers" (format_topic_for_response data)
          = VDict [ (VStr "local_identifier", VStr (cid data));
                    (VStr "entity_type", VStr "topic");
                    (VStr "labels", labels_value (prefLabels data)) ].
Proof.
  unfold topic_single. split.
  - destruct (dict_get topic_id store) as [data|]; split; try done.
    + by intros [detail H].
    + intros _. by eexists.
  - by intros data ->.
Qed.

End TopicFacts.

(** * Worked inputs *)
Module Examples.
Import Py PyFacts Loader.

(** ** Current profile *)

Definition poverty : Server.Concept :=
  {| Server.cid := "http://purl.org/elsst/poverty";
     Server.prefLabels := [("en", "Poverty"); ("de", "Armut")];
     Server.altLabels := [("en", ["Destitution"; "poverty"])];
     Server.broader := None |}.

Definition child_poverty : Server.Concept :=
  {| Server.cid := "http://purl.org/elsst/child-poverty";
     Server.prefLabels := [("en", "Child poverty")];
     Server.altLabels := [];
     Server.broader := Some "http://purl.org/elsst/poverty" |}.

Definition ELSST_DATA : Server.Store :=
  [ ("http://purl.org/elsst/poverty", poverty);
    ("http://purl.org/elsst/child-poverty", child_poverty) ].

Definition SEARCH_INDEX : Server.Index :=
  Server.build_search_index lower_ascii ELSST_DATA.

(** The index keeps both entries of a label that occurs twice. *)
Example SEARCH_INDEX_value :
  SEARCH_INDEX
  = [ ("en", [ ("poverty", "http://purl.org/elsst/poverty");
               ("destitution", "http://purl.org/elsst/poverty");
               ("poverty", "http://purl.org/elsst/poverty");
               ("child poverty", "http://purl.org/elsst/child-poverty") ]);
      ("de", [ ("armut", "http://purl.org/elsst/poverty") ]) ].
Proof. reflexivity. Qed.

Lemma topic_result_matches_witness :
  Server.topic_result lower_ascii ELSST_DATA SEARCH_INDEX "cf.search.labels:POV"
  = Success (Server.search lower_ascii ELSST_DATA SEARCH_INDEX "POV" "en")
  /\ exists filter_params term lang ids results,
       Server.parse_filter "cf.search.labels:POV" = Ok filter_params
       /\ dict_get "cf.search.labels" filter_params = Some term
       /\ lang = default "en" (dict_get "cf.search.language" filter_params)
       /\ 3 <= String.length term
       /\ Server.search lower_ascii ELSST_DATA SEARCH_INDEX "POV" "en"
          = IndexFacts.envelope results
       /\ Forall2 (IndexFacts.item_for ELSST_DATA) ids results
       /\ NoDup ids
       /\ Sorted String.le ids
       /\ forall concept_id,
            concept_id ∈ ids
            <-> exists label,
                  (label, concept_id) ∈ IndexFacts.posting_list lang SEARCH_INDEX
                  /\ substring_of (lower_ascii term) label.
Proof.
  split; [vm_compute; reflexivity|].
  apply (IndexFacts.topic_result_matches lower_ascii ELSST_DATA "cf.search.labels:POV").
  vm_compute. reflexivity.
Defined.

(** The two matching concepts come out in the order of their identifiers,
    not in the order of the store. *)
Example topic_result_order :
  exists first second,
    Server.topic_result lower_ascii ELSST_DATA SEARCH_INDEX "cf.search.labels:POV"
    = Success (IndexFacts.envelope [first; second])
    /\ field "local_identifier" first = Some (VStr "http://purl.org/elsst/child-poverty")
    /\ field "local_identifier" second = Some (VStr "http://purl.org/elsst/poverty").
Proof. eexists _, _. split; [vm_compute; reflexivity | split; reflexivity]. Qed.

Lemma topic_result_validation_witness :
  (3 <= String.length "pov"
   /\ Server.topic_result lower_ascii ELSST_DATA SEARCH_INDEX "cf.search.labels:pov"
      = Success (Server.search lower_ascii ELSST_DATA SEARCH_INDEX "pov" "en"))
  /\ (~ two_lowercase "x"
      /\ FilterFacts.filter_error
           (Server.topic_result lower_ascii ELSST_DATA SEARCH_INDEX
              "cf.search.labels:pov,cf.search.language:x"))
  /\ (String.length "po" < 3
      /\ FilterFacts.filter_error
           (Server.topic_result lower_ascii ELSST_DATA SEARCH_INDEX
              "cf.search.labels:po"))
  /\ (~ substring_of ":" "cf.search.language"
      /\ FilterFacts.filter_error
           (Server.topic_result lower_ascii ELSST_DATA SEARCH_INDEX
              "cf.search.labels:pov,cf.search.language")).
Proof.
  assert (Hx : ~ two_lowercase "x") by (by intros (a & b & H & _)).
  assert (Hcolon : ~ substring_of ":" "cf.search.language").
  { intros H%contains_substring. vm_compute in H. discriminate H. }
  split; [split; [simpl; lia|] | split; [split; [exact Hx|]
    | split; [split; [simpl; lia|] | split; [exact Hcolon|]]]].
  - destruct (FilterFacts.topic_result_validation lower_ascii ELSST_DATA SEARCH_INDEX
                "cf.search.labels:pov") as (_ & _ & _ & H).
    apply (H [("cf.search.labels", "pov")] "pov"); (reflexivity || (simpl; lia)).
  - destruct (FilterFacts.topic_result_validation lower_ascii ELSST_DATA SEARCH_INDEX
                "cf.search.labels:pov,cf.search.language:x") as (_ & _ & H & _).
    by apply (H [("cf.search.labels", "pov"); ("cf.search.language", "x")] "x").
  - destruct (FilterFacts.topic_result_validation lower_ascii ELSST_DATA SEARCH_INDEX
                "cf.search.labels:po") as (_ & H & _ & _).
    apply (H [("cf.search.labels", "po")]); [reflexivity|].
    right. exists "po". split; [reflexivity | simpl; lia].
  - destruct (FilterFacts.topic_result_validation lower_ascii ELSST_DATA SEARCH_INDEX
                "cf.search.labels:pov,cf.search.language") as (H & _ & _ & _).
    apply H. exists "cf.search.language". split; [|done].
    vm_compute. right. left.
Defined.

(** The item of [topic_single] has no ["identifiers"] member, which the
    item of the flat result list has. *)
Lemma topic_single_item_not_flat :
  Server.topic_single ELSST_DATA "http://purl.org/elsst/poverty"
  = Success
      (VDict [ (VStr "@context",
                VList [ VStr Server.SKG_IF_CONTEXT_URL;
                        VDict [(VStr "@base", VStr Server.SKG_IF_BASE_URL)] ]);
               (VStr "@graph",
                VList [ VDict [ (VStr "local_identifier",
                                 VStr "http://purl.org/elsst/poverty");
                                (VStr "entity_type", VStr "topic");
                                (VStr "labels",
                                 VDict [ (VStr "en", VStr "Poverty");
                                         (VStr "de", VStr "Armut") ]) ] ]) ])
  /\ Server.format_topic_for_response poverty
     = VDict [ (VStr "local_identifier", VStr "http://purl.org/elsst/poverty");
               (VStr "identifiers", VList []);
               (VStr "entity_type", VStr "topic");
               (VStr "labels",
                VDict [ (VStr "en", VStr "Poverty"); (VStr "de", VStr "Armut") ]) ]
  /\ field "identifiers" (Server.format_topic_for_response poverty) = Some (VList [])
  /\ field "identifiers"
       (VDict [ (VStr "local_identifier", VStr "http://purl.org/elsst/poverty");
                (VStr "entity_type", VStr "topic");
                (VStr "labels",
                 VDict [ (VStr "en", VStr "Poverty"); (VStr "de", VStr "Armut") ]) ])
     = None.
Proof. split_and!; reflexivity. Qed.

(** ** Legacy profile *)

Definition alpha : App.Concept :=
  {| App.cid := "A"; App.prefLabel := "Economy"; App.altLabel := [];
     App.broader := None |}.

Definition beta : App.Concept :=
  {| App.cid := "B"; App.prefLabel := "Labour market"; App.altLabel := ["Job market"];
     App.broader := Some "A" |}.

Definition gamma : App.Concept :=
  {| App.cid := "C"; App.prefLabel := "Unemployment"; App.altLabel := [];
     App.broader := Some "B" |}.

Definition hierarchy_store : App.Store := [("A", alpha); ("B", beta); ("C", gamma)].

Lemma get_parent_hierarchy_chain_witness :
  ("C" <> "" /\ is_Some (dict_get "C" hierarchy_store))
  /\ "C" ∈ App.get_parent_hierarchy hierarchy_store "C"
  /\ size (App.get_parent_hierarchy hierarchy_store "C") <= 20.
Proof.
  destruct (AppFacts.get_parent_hierarchy_chain hierarchy_store "C")
    as (_ & Hsize & Hstart).
  assert (Hin : "C" <> "" /\ is_Some (dict_get "C" hierarchy_store))
    by (split; [done | by eexists]).
  split; [exact Hin|]. split; [|exact Hsize].
  destruct Hin as [Hne Hsome]. exact (Hstart Hne Hsome).
Defined.

(** The scenario of the specification: a match on [C] expands to [A], [B]
    and [C]. *)
Example get_parent_hierarchy_scenario :
  App.get_parent_hierarchy hierarchy_store "C" = {["A"; "B"; "C"]}.
Proof.
  apply set_eq. intros x. unfold App.get_parent_hierarchy. simpl. set_solver.
Qed.

(** Two records that are each other's parent: the loop ends all the same. *)
Definition cyclic_store : App.Store :=
  [ ("X", {| App.cid := "X"; App.prefLabel := "x"; App.altLabel := [];
             App.broader := Some "Y" |});
    ("Y", {| App.cid := "Y"; App.prefLabel := "y"; App.altLabel := [];
             App.broader := Some "X" |}) ].

Example get_parent_hierarchy_cycle :
  elements (App.get_parent_hierarchy cyclic_store "X") ≡ₚ ["X"; "Y"].
Proof.
  assert (App.get_parent_hierarchy cyclic_store "X" = {["X"; "Y"]}) as ->.
  { apply set_eq. intros x. unfold App.get_parent_hierarchy. simpl. set_solver. }
  rewrite elements_union_singleton by set_solver. by rewrite elements_singleton.
Qed.

(** A chain of thirty records, each the parent of the one before. *)
Definition chain_store : App.Store :=
  map (fun k => (pretty k,
                 {| App.cid := pretty k; App.prefLabel := "level";
                    App.altLabel := []; App.broader := Some (pretty (S k)) |}))
      (seq 0 30).

(** The loop stops after twenty records. *)
Example get_parent_hierarchy_cap :
  size (App.get_parent_hierarchy chain_store "0") = 20
  /\ bool_decide ("19" ∈ App.get_parent_hierarchy chain_store "0") = true
  /\ bool_decide ("20" ∈ App.get_parent_hierarchy chain_store "0") = false.
Proof. vm_compute. done. Qed.

(** A record whose identifier is the empty string, as the loader accepts
    it, is in the store and yet not in its own hierarchy. *)
Definition nameless_node : LoaderFacts.Node :=
  {| LoaderFacts.node_id := "";
     LoaderFacts.node_types := LoaderFacts.OneType SKOS_CONCEPT;
     LoaderFacts.node_pref :=
       Some [ {| LoaderFacts.language := Some "en";
                 LoaderFacts.text := Some "Nameless" |} ];
     LoaderFacts.node_alt := None;
     LoaderFacts.node_broader := LoaderFacts.NoBroader |}.

Definition nameless : App.Concept :=
  {| App.cid := ""; App.prefLabel := "Nameless"; App.altLabel := [];
     App.broader := None |}.

Lemma get_parent_hierarchy_empty_id :
  (App.load_elsst_data App.DATA_FILE_PATH
     (Document (LoaderFacts.document [nameless_node]))).2
  = Ok (AppFacts.store_value [("", nameless)])
  /\ dict_get "" [("", nameless)] = Some nameless
  /\ App.get_parent_hierarchy [("", nameless)] "" = ∅.
Proof. split_and!; reflexivity. Qed.

(** A record whose broader identifier is the empty string, as the loader
    accepts it, gets no parent reference. *)
Definition orphan_node : LoaderFacts.Node :=
  {| LoaderFacts.node_id := "http://purl.org/elsst/orphan";
     LoaderFacts.node_types := LoaderFacts.Types [SKOS_CONCEPT];
     LoaderFacts.node_pref :=
       Some [ {| LoaderFacts.language := Some "en";
                 LoaderFacts.text := Some "Orphan" |} ];
     LoaderFacts.node_alt := None;
     LoaderFacts.node_broader := LoaderFacts.OneBroader (Some "") |}.

Definition orphan : App.Concept :=
  {| App.cid := "http://purl.org/elsst/orphan"; App.prefLabel := "Orphan";
     App.altLabel := []; App.broader := Some "" |}.

Lemma to_skgif_topic_empty_parent :
  App.keep (LoaderFacts.node_fields orphan_node) = Ok (AppFacts.record_value orphan)
  /\ App.broader orphan = Some ""
  /\ App.to_skgif_topic orphan
     = VDict [ (VStr "@id",
                VStr "https://w3id.org/skg-if/sandbox/cessda-elsst/http%3A//purl.org/elsst/orphan");
               (VStr "@type", VStr "Topic");
               (VStr "local_identifier", VStr "http://purl.org/elsst/orphan");
               (VStr "name", VStr "Orphan");
               (VStr "source", VDict [(VStr "@id", VStr "urn:cessda:elsst-v5")]) ]
  /\ field "parent_topic" (App.to_skgif_topic orphan) = None.
Proof. split_and!; reflexivity. Qed.

Lemma to_skgif_topic_identifiers_witness :
  (App.broader beta = Some "A" /\ "A" <> "")
  /\ field "@id" (App.to_skgif_topic beta)
     = Some (VStr "https://w3id.org/skg-if/sandbox/cessda-elsst/B")
  /\ field "parent_topic" (App.to_skgif_topic beta)
     = Some (VDict [ (VStr "@type", VStr "Topic");
                     (VStr "local_identifier", VStr "A") ]).
Proof.
  destruct (AppFacts.to_skgif_topic_identifiers beta) as (Hid & Hparent & _).
  assert (Hin : App.broader beta = Some "A" /\ "A" <> "") by done.
  split; [exact Hin|]. split; [exact Hid|].
  destruct Hin as [Hb Hne]. exact (proj1 (Hparent "A" Hb Hne)).
Defined.

(** The round trip of the specification: one topic node with its name and
    its alternate names, and no parent. *)
Example to_skgif_topic_round_trip :
  App.to_skgif_topic
    {| App.cid := "http://purl.org/elsst/poverty"; App.prefLabel := "Poverty";
       App.altLabel := ["Destitution"]; App.broader := None |}
  = VDict [ (VStr "@id",
             VStr "https://w3id.org/skg-if/sandbox/cessda-elsst/http%3A//purl.org/elsst/poverty");
            (VStr "@type", VStr "Topic");
            (VStr "local_identifier", VStr "http://purl.org/elsst/poverty");
            (VStr "name", VStr "Poverty");
            (VStr "source", VDict [(VStr "@id", VStr "urn:cessda:elsst-v5")]);
            (VStr "alternate_name", VList [VStr "Destitution"]) ].
Proof. reflexivity. Qed.

Lemma autocomplete_graph_witness :
  3 <= String.length "zzz"
  /\ AppFacts.no_match lower_ascii hierarchy_store (lower_ascii "zzz")
  /\ App.autocomplete lower_ascii hierarchy_store "zzz"
     = Success
         (VDict [ (VStr "@context",
                   VList [ VStr "https://w3id.org/skg-if/context/skg-if.json";
                           VDict [(VStr "@base", VStr App.SKG_IF_BASE_URL)] ]);
                  (VStr "@graph",
                   VList [ VDict [ (VStr "@id", VStr "urn:cessda:elsst-v5");
                                   (VStr "@type", VStr "DataSource");
                                   (VStr "local_identifier", VStr "elsst-v5");
                                   (VStr "name",
                                    VStr "European Language Social Science Thesaurus (ELSST) - Version 5");
                                   (VStr "url",
                                    VStr "https://thesauri.cessda.eu/elsst-5/en/") ] ]) ]).
Proof.
  assert (Hlen : 3 <= String.length "zzz") by (simpl; lia).
  assert (Hno : AppFacts.no_match lower_ascii hierarchy_store (lower_ascii "zzz")).
  { intros concept_id data Hin. unfold hierarchy_store in Hin.
    repeat (apply elem_of_cons in Hin as [[= -> ->] | Hin]);
      try (by apply elem_of_nil in Hin);
      (split; [intros H%contains_substring; vm_compute in H; discriminate H|]);
      intros alt_label Halt; cbn in Halt;
      repeat (apply elem_of_cons in Halt as [-> | Halt]);
      try (by apply elem_of_nil in Halt);
      intros H%contains_substring; vm_compute in H; discriminate H. }
  split; [exact Hlen|]. split; [exact Hno|].
  destruct (AppFacts.autocomplete_graph lower_ascii hierarchy_store "zzz" Hlen)
    as (topics & Hbody & Hzero).
  rewrite Hbody, (Hzero Hno). reflexivity.
Defined.

(** A query that matches [C] alone brings the DataSource node first, then
    the three topics of the hierarchy. *)
Example autocomplete_scenario :
  exists topics,
    App.autocomplete lower_ascii hierarchy_store "unemp"
    = Success
        (VDict [ (VStr "@context",
                  VList [ VStr "https://w3id.org/skg-if/context/skg-if.json";
                          VDict [(VStr "@base", VStr App.SKG_IF_BASE_URL)] ]);
                 (VStr "@graph", VList (App.get_data_source :: topics)) ])
    /\ topics ≡ₚ App.to_skgif_topic <$> [alpha; beta; gamma].
Proof.
  eexists. split; [vm_compute; reflexivity|].
  vm_compute. apply (Permutation_cons_append [_; _] _).
Qed.

(** ** Loaders *)



(** The value of the last pair of [lang] in source order, whatever the
    value. *)
Definition last_pair_value (lang : string) (labels : list LoaderFacts.Label)
  : option string :=
  last (omap (fun l => if decide (LoaderFacts.language l = Some lang)
                       then LoaderFacts.text l else None)
             labels).

Definition two_english : list LoaderFacts.Label :=
  [ {| LoaderFacts.language := Some "en"; LoaderFacts.text := Some "Poverty" |};
    {| LoaderFacts.language := Some "en"; LoaderFacts.text := Some "Poorness" |} ].

Definition empty_last : list LoaderFacts.Label :=
  [ {| LoaderFacts.language := Some "en"; LoaderFacts.text := Some "Poverty" |};
    {| LoaderFacts.language := Some "en"; LoaderFacts.text := Some "" |} ].

Definition labelled (labels : list LoaderFacts.Label) : LoaderFacts.Node :=
  {| LoaderFacts.node_id := "http://purl.org/elsst/poverty";
     LoaderFacts.node_types := LoaderFacts.OneType SKOS_CONCEPT;
     LoaderFacts.node_pref := Some labels;
     LoaderFacts.node_alt := None;
     LoaderFacts.node_broader := LoaderFacts.NoBroader |}.

(** The legacy loader keeps the first English label, not the last; the
    current loader keeps the last pair whose value is not empty. *)
Lemma last_pair_does_not_win :
  (last_pair_value "en" two_english = Some "Poorness"
   /\ App.keep (LoaderFacts.node_fields (labelled two_english))
      = Ok (VDict [ (VStr "@id", VStr "http://purl.org/elsst/poverty");
                    (VStr "prefLabel", VStr "Poverty");
                    (VStr "altLabel", VList []);
                    (VStr "broader", VNone) ]))
  /\ (last_pair_value "en" empty_last = Some ""
      /\ Server.keep (LoaderFacts.node_fields (labelled empty_last))
         = Ok (VDict [ (VStr "@id", VStr "http://purl.org/elsst/poverty");
                       (VStr "prefLabels", VDict [(VStr "en", VStr "Poverty")]);
                       (VStr "altLabels", VDict []);
                       (VStr "broader", VNone) ])).
Proof. split_and!; reflexivity. Qed.

(** With usable pairs only the current loader does keep the last one. *)
Lemma pref_label_choice_witness :
  exists record d,
    Server.keep (LoaderFacts.node_fields (labelled two_english)) = Ok record
    /\ field "prefLabels" record = Some (VDict (LoaderFacts.items VStr d))
    /\ NoDup d.*1
    /\ forall lang,
         dict_get lang d
         = last (LoaderFacts.values_for lang
                   (omap LoaderFacts.usable
                      (default [] (LoaderFacts.node_pref (labelled two_english))))).
Proof. exact (proj1 (LoaderFacts.pref_label_choice (labelled two_english))). Defined.

Example pref_label_choice_value :
  Server.keep (LoaderFacts.node_fields (labelled two_english))
  = Ok (VDict [ (VStr "@id", VStr "http://purl.org/elsst/poverty");
                (VStr "prefLabels", VDict [(VStr "en", VStr "Poorness")]);
                (VStr "altLabels", VDict []);
                (VStr "broader", VNone) ]).
Proof. reflexivity. Qed.

Definition english : LoaderFacts.Label :=
  {| LoaderFacts.language := Some "en"; LoaderFacts.text := Some "Poverty" |}.

Definition untagged : LoaderFacts.Label :=
  {| LoaderFacts.language := None; LoaderFacts.text := Some "Untagged" |}.

Definition others : list LoaderFacts.Label :=
  [ {| LoaderFacts.language := Some ""; LoaderFacts.text := Some "Blank tag" |};
    {| LoaderFacts.language := Some "de"; LoaderFacts.text := None |};
    {| LoaderFacts.language := Some "fr"; LoaderFacts.text := Some "" |};
    {| LoaderFacts.language := Some "de"; LoaderFacts.text := Some "Armut" |} ].

Definition sparse : list LoaderFacts.Label := [english] ++ untagged :: others.


(** A pair whose value is the number 7 is kept: the label stored is no
    string. *)
Definition numbered_node : value :=
  VDict [ (VStr "@id", VStr "http://purl.org/elsst/poverty");
          (VStr "@type", VStr SKOS_CONCEPT);
          (VStr SKOS_PREF_LABEL,
           VList [ VDict [ (VStr "@language", VStr "en"); (VStr "@value", VInt 7) ] ]) ].


(** Missing and empty languages and values leave no trace in the record. *)
Example unusable_pairs_dropped_value :
  Server.keep (LoaderFacts.node_fields (labelled sparse))
  = Ok (VDict [ (VStr "@id", VStr "http://purl.org/elsst/poverty");
                (VStr "prefLabels",
                 VDict [(VStr "en", VStr "Poverty"); (VStr "de", VStr "Armut")]);
                (VStr "altLabels", VDict []);
                (VStr "broader", VNone) ]).
Proof. reflexivity. Qed.

End Examples.

(** * Further properties of the code *)

(** ** The loaders on any JSON, and on well-typed exports *)
Module LoaderMore.
Import Py PyFacts Loader LoaderFacts.

Lemma for_each_app {A S : Type} (body : S -> A -> result S) (xs ys : list A) (s : S) :
  for_each body (xs ++ ys) s = (s' ← for_each body xs s; for_each body ys s').
Proof.
  revert s. induction xs as [|x xs IH]; intros s; [done|].
  cbn [app for_each]. destruct (body s x) as [s'|e]; [apply IH | done].
Qed.

Lemma key_eqb_refl (k : value) : hashable k = true -> key_eqb k k = true.
Proof.
  destruct k as [|b|z|s| |]; try done; simpl; intros _.
  - by destruct b.
  - apply Z.eqb_refl.
  - apply String.eqb_refl.
Qed.

Lemma key_eqb_str (s : string) (v : value) : key_eqb (VStr s) v = true -> v = VStr s.
Proof. destruct v; try done. simpl. by intros ->%String.eqb_eq. Qed.

Lemma assign_entry (key v k w : value) (members : list (value * value)) :
  (k, w) ∈ assign key v members ->
  (k, w) ∈ members \/ (w = v /\ (k = key \/ key_eqb k key = true)).
Proof.
  induction members as [|[k0 v0] members IH]; cbn [assign].
  - intros [= -> ->]%list_elem_of_singleton. right. split; [done | by left].
  - destruct (key_eqb k0 key) eqn:Hkey.
    + intros [[= -> ->] | H]%elem_of_cons.
      * right. split; [done | by right].
      * left. by right.
    + intros [[= -> ->] | H]%elem_of_cons; [left; left|].
      destruct (IH H) as [Hin | Hnew]; [left; by right | by right].
Qed.

(** Each record sits under a key equal, as a dictionary key, to its
    ["@id"]. *)
Definition consistent (store : list (value * value)) : Prop :=
  forall k record,
    (k, record) ∈ store ->
    exists id, field "@id" record = Some id /\ key_eqb k id = true.

Section Consistency.

Context (keep : list (value * value) -> result value).
Hypothesis keep_id :
  forall fields record,
    keep fields = Ok record -> field "@id" record = Some (get "@id" VNone fields).

Lemma graph_loop_consistent (nodes : list value) (before after : list (value * value)) :
  for_each
    (fun processed_data concept =>
       node ← concept_node concept;
       match node with
       | None => Ok processed_data
       | Some fields =>
           record ← keep fields;
           setitem (get "@id" VNone fields) record processed_data
       end)
    nodes before = Ok after ->
  consistent before -> consistent after.
Proof.
  revert before. induction nodes as [|concept nodes IH]; intros before; cbn [for_each].
  - by intros [= ->].
  - destruct (concept_node concept) as [[fields|]|e]; cbn [mbind result_bind]; [| apply IH | done].
    destruct (keep fields) as [record|e] eqn:Hkeep; cbn [mbind result_bind]; [|done].
    unfold setitem. destruct (hashable (get "@id" VNone fields)) eqn:Hhash; [|done].
    cbn [mbind result_bind]. intros Hrest Hbefore. apply (IH _ Hrest).
    intros k w [Hin | [-> Hk]]%assign_entry; [by apply Hbefore|].
    exists (get "@id" VNone fields). split; [by apply keep_id|].
    destruct Hk as [-> | Hk]; [by apply key_eqb_refl | done].
Qed.

Lemma load_consistent (loaded : nat -> string) (filepath : string) (src : source)
    (store : list (value * value)) :
  (load keep loaded filepath src).2 = Ok (VDict store) -> consistent store.
Proof.
  unfold load. destruct (read src) as [data|[]]; cbn [snd]; try done;
    try (intros [= <-]; by intros k record H%elem_of_nil).
  destruct (find_graph data) as [[graph|]|e]; cbn [snd]; try done;
    try (intros [= <-]; by intros k record H%elem_of_nil).
  destruct (process_graph keep graph) as [processed|e] eqn:Hgraph; cbn [snd]; [|done].
  intros [= <-]. unfold process_graph in Hgraph.
  destruct (iterate graph) as [nodes|e]; [|done]. cbn [mbind result_bind] in Hgraph.
  apply (graph_loop_consistent _ _ _ Hgraph). by intros k record H%elem_of_nil.
Qed.

End Consistency.

Lemma server_keep_id (fields : list (value * value)) (record : value) :
  Server.keep fields = Ok record -> field "@id" record = Some (get "@id" VNone fields).
Proof.
  unfold Server.keep.
  destruct (iterate (get SKOS_PREF_LABEL _ _)) as [labels|]; [|done]. cbn [mbind result_bind].
  destruct (for_each Server.pref_step labels []) as [pref|]; [|done]. cbn [mbind result_bind].
  destruct (iterate (get SKOS_ALT_LABEL _ _)) as [labels'|]; [|done]. cbn [mbind result_bind].
  destruct (for_each Server.alt_step labels' []) as [alt|]; [|done]. cbn [mbind result_bind].
  destruct (broader_of fields) as [b|]; [|done]. cbn [mbind result_bind].
  by intros [= <-].
Qed.

Lemma app_keep_id (fields : list (value * value)) (record : value) :
  App.keep fields = Ok record -> field "@id" record = Some (get "@id" VNone fields).
Proof.
  unfold App.keep.
  destruct (iterate (get SKOS_PREF_LABEL _ _)) as [labels|]; [|done]. cbn [mbind result_bind].
  destruct (App.english_label labels) as [pref|]; [|done]. cbn [mbind result_bind].
  destruct (iterate (get SKOS_ALT_LABEL _ _)) as [labels'|]; [|done]. cbn [mbind result_bind].
  destruct (for_each App.alt_step labels' []) as [alt|]; [|done]. cbn [mbind result_bind].
  destruct (broader_of fields) as [b|]; [|done]. cbn [mbind result_bind].
  by intros [= <-].
Qed.

(** X1. Whatever the input, when a loader returns a store, every record in
    it has an ["@id"] member equal, as a dictionary key, to the key it is
    stored under; under a string key the two are the same string. *)
Theorem loaded_ids_consistent (filepath : string) (src : source)
    (store : list (value * value)) :
  (Server.load_elsst_data filepath src).2 = Ok (VDict store)
  \/ (App.load_elsst_data filepath src).2 = Ok (VDict store) ->
  forall k record,
    (k, record) ∈ store ->
    exists id,
      field "@id" record = Some id
      /\ key_eqb k id = true
      /\ forall s, k = VStr s -> id = VStr s.
Proof.
  intros Hload k record Hin.
  assert (Hc : consistent store).
  { destruct Hload as [H|H].
    - apply (load_consistent Server.keep server_keep_id _ _ _ _ H).
    - apply (load_consistent App.keep app_keep_id _ _ _ _ H). }
  destruct (Hc k record Hin) as (id & Hid & Hk). exists id. split_and!; [done..|].
  intros s ->. by apply key_eqb_str.
Qed.

(** *** Nodes the loop passes over *)

Lemma graph_loop_foreign (keep : list (value * value) -> result value)
    (before after : list value) (junk : value) (store : list (value * value)) :
  passed_over junk ->
  for_each
    (fun processed_data concept =>
       node ← concept_node concept;
       match node with
       | None => Ok processed_data
       | Some fields =>
           record ← keep fields;
           setitem (get "@id" VNone fields) record processed_data
       end)
    (before ++ junk :: after) store
  = for_each
      (fun processed_data concept =>
         node ← concept_node concept;
         match node with
         | None => Ok processed_data
         | Some fields =>
             record ← keep fields;
             setitem (get "@id" VNone fields) record processed_data
         end)
      (before ++ after) store.
Proof.
  intros Hjunk. rewrite !for_each_app.
  destruct (for_each _ before store) as [s'|e]; [|done]. cbn [mbind result_bind for_each].
  by rewrite (passed_over_skipped junk Hjunk).
Qed.

Lemma load_foreign (keep : list (value * value) -> result value)
    (loaded : nat -> string) (filepath : string) (before after : list value)
    (junk : value) :
  passed_over junk ->
  load keep loaded filepath (Document (VDict [(VStr "@graph", VList (before ++ junk :: after))]))
  = load keep loaded filepath (Document (VDict [(VStr "@graph", VList (before ++ after))])).
Proof.
  intros Hjunk. unfold load, process_graph.
  cbn [read find_graph lookup key_eqb String.eqb Ascii.eqb Bool.eqb iterate mbind result_bind].
  by rewrite (graph_loop_foreign keep before after junk [] Hjunk).
Qed.

(** X2. When [json.load] has returned an object whose ["@graph"] list
    holds an element that is not an object, has no ["@id"] or is not typed
    as a concept, the loop passes over the element: each loader prints the
    same lines and gives the same result, store or exception, as for the
    list without that element. *)
Theorem loader_skips_foreign_nodes (filepath : string) (before after : list value)
    (junk : value) :
  passed_over junk ->
  Server.load_elsst_data filepath
    (Document (VDict [(VStr "@graph", VList (before ++ junk :: after))]))
  = Server.load_elsst_data filepath
      (Document (VDict [(VStr "@graph", VList (before ++ after))]))
  /\ App.load_elsst_data filepath
       (Document (VDict [(VStr "@graph", VList (before ++ junk :: after))]))
     = App.load_elsst_data filepath
         (Document (VDict [(VStr "@graph", VList (before ++ after))])).
Proof. intros Hjunk. split; by apply load_foreign. Qed.

(** *** Well-typed exports *)

(** The concept nodes of a graph that carry the identifier [id]. *)
Definition nodes_with (id : string) (nodes : list Node) : list Node :=
  filter (fun n => is_concept n = true /\ node_id n = id) nodes.

Lemma store_from_cons {R : Type} (of_node : Node -> R) (n : Node)
    (nodes : list Node) (store : dict R) :
  store_from of_node store (n :: nodes)
  = store_from of_node
      (if is_concept n then dict_set (node_id n) (of_node n) store else store) nodes.
Proof. reflexivity. Qed.

Lemma store_from_get {R : Type} (of_node : Node -> R) (id : string)
    (nodes : list Node) (store : dict R) :
  dict_get id (store_from of_node store nodes)
  = match last (nodes_with id nodes) with
    | Some n => Some (of_node n)
    | None => dict_get id store
    end.
Proof.
  revert store. induction nodes as [|n nodes IH]; intros store; [done|].
  rewrite store_from_cons, IH. unfold nodes_with. rewrite filter_cons.
  destruct (is_concept n) eqn:Hc.
  - destruct (decide (node_id n = id)) as [<-|Hne].
    + rewrite decide_True by done.
      destruct (filter _ nodes) as [|m rest] eqn:Hrest.
      * simpl. by rewrite dict_get_set_eq.
      * change (last (n :: m :: rest)) with (last (m :: rest)).
        destruct (last (m :: rest)) eqn:Hlast; [done|]. by apply last_None in Hlast.
    + rewrite decide_False by (by intros [_ ?]).
      destruct (last _); [done|]. by rewrite dict_get_set_ne.
  - by rewrite decide_False by (by intros [? _]).
Qed.

Lemma store_from_NoDup {R : Type} (of_node : Node -> R) (nodes : list Node)
    (store : dict R) :
  NoDup store.*1 -> NoDup (store_from of_node store nodes).*1.
Proof.
  revert store. induction nodes as [|n nodes IH]; intros store Hstore; [done|].
  rewrite store_from_cons.
  destruct (is_concept n); apply IH; [by apply dict_set_NoDup | done].
Qed.

(** X3. On a well-typed export both loaders raise nothing; each returns a
    store in which no identifier is a key twice, an identifier is a key
    exactly when a concept node carries it, and the record under it is the
    one of the last such node; the line printed counts the records. *)
Theorem load_elsst_data_typed (filepath : string) (nodes : list Node) :
  (exists store : Server.Store,
     Server.load_elsst_data filepath (Document (document nodes))
     = ([ "Loaded " +:+ pretty (length store) +:+ " concepts with multilingual labels" ],
        Ok (VDict (items record_value store)))
     /\ NoDup store.*1
     /\ forall id, dict_get id store = concept_of <$> last (nodes_with id nodes))
  /\ (exists store : App.Store,
        App.load_elsst_data filepath (Document (document nodes))
        = ([ "Loaded " +:+ pretty (length store) +:+ " concepts" ],
           Ok (VDict (items AppFacts.record_value store)))
        /\ NoDup store.*1
        /\ forall id, dict_get id store = legacy_concept_of <$> last (nodes_with id nodes)).
Proof.
  split.
  - exists (store_from concept_of [] nodes). split_and!.
    + apply load_document.
    + apply store_from_NoDup. constructor.
    + intros id. rewrite store_from_get. by destruct (last _).
  - exists (store_from legacy_concept_of [] nodes). split_and!.
    + apply legacy_load_document.
    + apply store_from_NoDup. constructor.
    + intros id. rewrite store_from_get. by destruct (last _).
Qed.

(** *** Alternative labels *)

Lemma dict_get_append_option {A : Type} (key other : string) (x : A)
    (d : dict (list A)) :
  dict_get other (dict_append key x d)
  = if decide (key = other) then Some (default [] (dict_get other d) ++ [x])
    else dict_get other d.
Proof.
  unfold dict_append. destruct (decide (key = other)) as [->|Hne].
  - destruct (dict_get other d) as [old|]; by rewrite dict_get_set_eq.
  - destruct (dict_get key d); by rewrite dict_get_set_ne.
Qed.

Lemma fold_append_get (lang : string) (pairs : list (string * string))
    (d : dict (list string)) :
  dict_get lang (fold_left (fun d '(l, val) => dict_append l val d) pairs d)
  = match values_for lang pairs with
    | [] => dict_get lang d
    | vals => Some (default [] (dict_get lang d) ++ vals)
    end.
Proof.
  revert d. induction pairs as [|[l val] pairs IH]; intros d; [done|].
  cbn [fold_left]. rewrite IH, dict_get_append_option.
  unfold values_for. cbn [omap list_omap]. fold (values_for lang pairs).
  destruct (decide (l = lang)) as [->|Hne]; cbn [option_bind default from_option id].
  - destruct (values_for lang pairs); [done|]. by rewrite <- app_assoc.
  - done.
Qed.

Lemma dict_append_NoDup {A : Type} (key : string) (x : A) (d : dict (list A)) :
  NoDup d.*1 -> NoDup (dict_append key x d).*1.
Proof. unfold dict_append. destruct (dict_get key d); apply dict_set_NoDup. Qed.

Lemma alt_map_NoDup (labels : list Label) : NoDup (alt_map labels).*1.
Proof.
  unfold alt_map.
  enough (Hgen : forall pairs (d : dict (list string)), NoDup d.*1 ->
    NoDup (fold_left (fun d '(l, v) => dict_append l v d) pairs d).*1)
    by (apply Hgen; constructor).
  induction pairs as [|[l v] pairs IH]; intros d Hd; [done|].
  cbn [fold_left]. by apply IH, dict_append_NoDup.
Qed.

(** X4. For a well-typed node the current loader groups the alternative
    labels by language: no language is a key twice, a language is a key
    exactly when a usable pair carries it, and its list holds the values of
    those pairs in source order, repetitions kept.  The legacy loader keeps
    one list: every non-empty value, whatever its language, in source
    order. *)
Theorem alt_labels_grouped (n : Node) :
  (exists record alt,
     Server.keep (node_fields n) = Ok record
     /\ field "altLabels" record = Some (VDict (items strings alt))
     /\ NoDup alt.*1
     /\ forall lang,
          dict_get lang alt
          = match values_for lang (omap usable (default [] (node_alt n))) with
            | [] => None
            | vals => Some vals
            end)
  /\ (exists record,
        App.keep (node_fields n) = Ok record
        /\ field "altLabel" record
           = Some (strings (values_of (default [] (node_alt n))))).
Proof.
  split.
  - exists (record_value (concept_of n)), (alt_map (default [] (node_alt n))).
    split_and!; [apply keep_node | done | apply alt_map_NoDup |].
    intros lang. unfold alt_map. rewrite fold_append_get. by destruct (values_for _ _).
  - exists (AppFacts.record_value (legacy_concept_of n)).
    split; [apply legacy_keep_node | done].
Qed.

End LoaderMore.

(** ** The index and the search, from the store's point of view *)
Module IndexMore.
Import Py PyFacts Server IndexFacts.

(** The record has the label [l] in the language [lang], preferred or
    alternative. *)
Definition has_label (lang : string) (data : Concept) (l : string) : Prop :=
  (lang, l) ∈ prefLabels data
  \/ exists labels, (lang, labels) ∈ altLabels data /\ l ∈ labels.

(** The labels of a store, counted with their repetitions. *)
Definition label_count (store : Store) : nat :=
  sum_list ((fun '(_, data) =>
               length (prefLabels data)
               + sum_list (length <$> (altLabels data).*2)) <$> store).

(** The entries of an index, all languages together. *)
Definition index_size (index : Index) : nat := sum_list (length <$> index.*2).

Lemma lengths_cons {A : Type} (k : string) (v : list A) (d : dict (list A)) :
  sum_list (length <$> ((k, v) :: d).*2) = length v + sum_list (length <$> d.*2).
Proof. reflexivity. Qed.

Lemma dict_set_size {A : Type} (key : string) (old new : list A)
    (d : dict (list A)) :
  dict_get key d = Some old ->
  sum_list (length <$> (dict_set key new d).*2) + length old
  = sum_list (length <$> d.*2) + length new.
Proof.
  induction d as [|[k v] d IH]; [done|]. cbn [dict_get dict_set].
  destruct (String.eqb k key).
  - intros [= ->]. rewrite !lengths_cons. lia.
  - intros H. specialize (IH H). rewrite !lengths_cons. lia.
Qed.

Lemma dict_set_size_new {A : Type} (key : string) (new : list A) (d : dict (list A)) :
  dict_get key d = None ->
  sum_list (length <$> (dict_set key new d).*2)
  = sum_list (length <$> d.*2) + length new.
Proof.
  induction d as [|[k v] d IH]; [intros _; cbn [dict_set]; rewrite lengths_cons; simpl; lia|].
  cbn [dict_get dict_set].
  destruct (String.eqb k key); [done|].
  intros H. specialize (IH H). rewrite !lengths_cons. lia.
Qed.

Lemma dict_append_size {A : Type} (key : string) (x : A) (d : dict (list A)) :
  sum_list (length <$> (dict_append key x d).*2) = S (sum_list (length <$> d.*2)).
Proof.
  unfold dict_append. destruct (dict_get key d) as [old|] eqn:Hget.
  - pose proof (dict_set_size key old (old ++ [x]) d Hget) as H.
    rewrite length_app in H. simpl in H. lia.
  - rewrite (dict_set_size_new key [x] d Hget). simpl. lia.
Qed.

(** No posting list of the index is empty. *)
Definition no_empty_list {A : Type} (d : dict (list A)) : Prop :=
  forall key entries, (key, entries) ∈ d -> entries <> [].

Lemma dict_append_filled {A : Type} (key : string) (x : A) (d : dict (list A)) :
  no_empty_list d -> no_empty_list (dict_append key x d).
Proof.
  intros Hd k entries Hin. unfold dict_append in Hin.
  destruct (dict_get key d) as [old|];
    apply LoaderFacts.dict_set_elem in Hin as [Hin | [_ ->]];
    try (by eapply Hd); [by destruct old | done].
Qed.

Section Index.

Variable lower : string -> string.

(** What the three nested loops of [build_search_index] keep true. *)
Definition shaped (index : Index) : Prop :=
  NoDup index.*1 /\ no_empty_list index.

Lemma grow_one (l : string) (entry : string * string) (index : Index) :
  shaped index ->
  shaped (dict_append l entry index)
  /\ index_size (dict_append l entry index) = index_size index + 1.
Proof.
  intros [Hkeys Hfilled]. unfold shaped, index_size. rewrite dict_append_size.
  split_and!; [by apply LoaderMore.dict_append_NoDup | by apply dict_append_filled | lia].
Qed.

Lemma grow_pref (concept_id : string) (prefs : dict string) (index : Index) :
  shaped index ->
  shaped (fold_left (fun search_index '(l, label) =>
                       dict_append l (lower label, concept_id) search_index)
                    prefs index)
  /\ index_size (fold_left (fun search_index '(l, label) =>
                              dict_append l (lower label, concept_id) search_index)
                           prefs index)
     = index_size index + length prefs.
Proof.
  revert index. induction prefs as [|[l label] prefs IH]; intros index Hindex.
  - simpl. split; [done | lia].
  - cbn [fold_left]. destruct (grow_one l (lower label, concept_id) index Hindex) as [H1 H2].
    destruct (IH _ H1) as [H3 H4]. split; [done|]. rewrite H4, H2. simpl. lia.
Qed.

Lemma grow_labels (l concept_id : string) (labels : list string) (index : Index) :
  shaped index ->
  shaped (fold_left (fun search_index label =>
                       dict_append l (lower label, concept_id) search_index)
                    labels index)
  /\ index_size (fold_left (fun search_index label =>
                              dict_append l (lower label, concept_id) search_index)
                           labels index)
     = index_size index + length labels.
Proof.
  revert index. induction labels as [|label labels IH]; intros index Hindex.
  - simpl. split; [done | lia].
  - cbn [fold_left]. destruct (grow_one l (lower label, concept_id) index Hindex) as [H1 H2].
    destruct (IH _ H1) as [H3 H4]. split; [done|]. rewrite H4, H2. simpl. lia.
Qed.

Lemma grow_alt (concept_id : string) (alts : dict (list string)) (index : Index) :
  shaped index ->
  shaped (fold_left (fun search_index '(l, labels) =>
                       fold_left (fun search_index label =>
                                    dict_append l (lower label, concept_id) search_index)
                                 labels search_index)
                    alts index)
  /\ index_size (fold_left (fun search_index '(l, labels) =>
                              fold_left (fun search_index label =>
                                           dict_append l (lower label, concept_id)
                                             search_index)
                                        labels search_index)
                           alts index)
     = index_size index + sum_list (length <$> alts.*2).
Proof.
  revert index. induction alts as [|[l labels] alts IH]; intros index Hindex.
  - simpl. split; [done | lia].
  - cbn [fold_left]. destruct (grow_labels l concept_id labels index Hindex) as [H1 H2].
    destruct (IH _ H1) as [H3 H4]. split; [done|].
    rewrite H4, H2, lengths_cons. lia.
Qed.

Lemma index_from_shaped (store : Store) (index : Index) :
  shaped index ->
  shaped (index_from lower index store)
  /\ index_size (index_from lower index store) = index_size index + label_count store.
Proof.
  revert index. induction store as [|[concept_id data] store IH]; intros index Hindex.
  - unfold label_count. simpl. split; [done | lia].
  - unfold index_from in *. cbn [fold_left].
    destruct (grow_pref concept_id (prefLabels data) index Hindex) as [H1 H2].
    destruct (grow_alt concept_id (altLabels data) _ H1) as [H3 H4].
    destruct (IH _ H3) as [H5 H6]. split; [done|].
    rewrite H6, H4, H2. unfold label_count. rewrite fmap_cons. simpl. lia.
Qed.

Lemma postings_elem (lang : string) (store : Store) (label concept_id : string) :
  (label, concept_id) ∈ postings lower lang store
  <-> exists data l,
        (concept_id, data) ∈ store /\ has_label lang data l /\ label = lower l.
Proof.
  unfold postings. rewrite list_elem_of_In, in_flat_map. split.
  - intros [[id data] [Hin Hentry]]. apply list_elem_of_In in Hin.
    apply in_app_or in Hentry as [H|H].
    + apply list_elem_of_In, list_elem_of_omap in H as [[l lab] [Hl H]].
      destruct (decide (l = lang)) as [->|]; [|done]. injection H as <- <-.
      exists data, lab. split_and!; [done | by left | done].
    + apply in_flat_map in H as [[l labels] [Hl H]].
      destruct (decide (l = lang)) as [->|]; [|done].
      apply in_map_iff in H as [lab [[= <- <-] Hlab]].
      exists data, lab. split_and!; [done | | done].
      right. exists labels. split; by apply list_elem_of_In.
  - intros (data & l & Hin & Hlabel & ->). exists (concept_id, data).
    split; [by apply list_elem_of_In|]. apply in_or_app.
    destruct Hlabel as [Hpref | (labels & Halt & Hl)].
    + left. apply list_elem_of_In, list_elem_of_omap. exists (lang, l).
      split; [done|]. by rewrite decide_True.
    + right. apply in_flat_map. exists (lang, labels).
      split; [by apply list_elem_of_In|]. rewrite decide_True by done.
      apply in_map_iff. exists l. split; [done | by apply list_elem_of_In].
Qed.

(** X5. The index built from a store holds the entry (label, id) under a
    language exactly when the store has a record under [id] with a
    preferred or alternative label in that language whose lowercase form is
    [label]: nothing is indexed that the store does not hold, and no label
    is left out. *)
Theorem index_entries (store : Store) (lang label concept_id : string) :
  (label, concept_id) ∈ posting_list lang (build_search_index lower store)
  <-> exists data l,
        (concept_id, data) ∈ store /\ has_label lang data l /\ label = lower l.
Proof. rewrite posting_list_build. apply postings_elem. Qed.

(** X6. The index has no language twice and no empty posting list, and it
    holds as many entries as the store has labels, repetitions counted. *)
Theorem index_shape (store : Store) :
  NoDup (build_search_index lower store).*1
  /\ (forall lang entries,
        dict_get lang (build_search_index lower store) = Some entries ->
        entries <> [])
  /\ index_size (build_search_index lower store) = label_count store.
Proof.
  change (build_search_index lower store) with (index_from lower [] store).
  destruct (index_from_shaped store []) as [[Hkeys Hfilled] Hsize].
  { split; [constructor | by intros k e H%elem_of_nil]. }
  split_and!; [done | | done].
  intros lang entries Hget. apply (Hfilled lang). by apply dict_get_Some_elem.
Qed.

(** X7. A language no record has a label in gives an empty result list with
    count 0, whatever the term: the search does not fail on it. *)
Theorem search_unknown_language (store : Store) (term lang : string) :
  (forall concept_id data l, (concept_id, data) ∈ store -> ~ has_label lang data l) ->
  search lower store (build_search_index lower store) term lang = envelope [].
Proof.
  intros Hnone. unfold search.
  assert (posting_list lang (build_search_index lower store) = []) as Hempty.
  { destruct (posting_list _ _) as [|[label id] rest] eqn:Hlist; [done|].
    assert (Hin : (label, id) ∈ posting_list lang (build_search_index lower store))
      by (rewrite Hlist; left).
    rewrite posting_list_build in Hin.
    apply postings_elem in Hin as (data & l & Hin & Hl & _). by destruct (Hnone id data l). }
  unfold posting_list in Hempty. rewrite Hempty. reflexivity.
Qed.

End Index.

End IndexMore.

(** ** The filter of the current profile, read as a whole *)
Module FilterMore.
Import Py PyFacts Server FilterFacts.

(** What a part of the filter gives the parameter [name]: the stripped
    text after its first colon, when the stripped text before it is
    [name]. *)
Definition assignment (name part : string) : option string :=
  match split1 ":" part with
  | [key; val] => if decide (strip key = name) then Some (strip val) else None
  | _ => None
  end.

Lemma parse_step_split (init : dict string) (part : string) :
  parse_step init part
  = match split1 ":" part with
    | [key; val] => Ok (dict_set (strip key) (strip val) init)
    | _ => Raise ValueError
    end.
Proof. reflexivity. Qed.

Lemma assignment_split (name part : string) :
  assignment name part
  = match split1 ":" part with
    | [key; val] => if decide (strip key = name) then Some (strip val) else None
    | _ => None
    end.
Proof. reflexivity. Qed.

Lemma parse_loop_get (parts : list string) (init filter_params : dict string)
    (name : string) :
  for_each parse_step parts init = Ok filter_params ->
  dict_get name filter_params
  = match last (omap (assignment name) parts) with
    | Some val => Some val
    | None => dict_get name init
    end.
Proof.
  revert init. induction parts as [|part parts IH]; intros init; cbn [for_each].
  - by intros [= ->].
  - rewrite (parse_step_split init part). cbn [omap list_omap].
    rewrite (assignment_split name part).
    destruct (split1 ":" part) as [|key [|val [|? ?]]]; try done.
    cbn [mbind result_bind]. intros Hrest. rewrite (IH _ Hrest).
    destruct (decide (strip key = name)) as [<-|Hne]; cbn [option_bind].
    + rewrite dict_get_set_eq.
      destruct (omap _ parts) as [|x xs]; [done|].
      change (last (strip val :: x :: xs)) with (last (x :: xs)).
      destruct (last (x :: xs)) eqn:Hlast; [done|]. by apply last_None in Hlast.
    + by rewrite dict_get_set_ne.
Qed.

(** X8. Parsing the filter fails, with [ValueError] and nothing else,
    exactly when one of its comma-separated parts has no colon; otherwise
    every parameter has the value of the last part that names it, key and
    value stripped of surrounding white space, and a name no part gives is
    absent. *)
Theorem parse_filter_params (filter : string) :
  (parse_filter filter = Raise ValueError
   <-> exists part, part ∈ split "," filter /\ ~ substring_of ":" part)
  /\ (forall e, parse_filter filter = Raise e -> e = ValueError)
  /\ (forall filter_params name,
        parse_filter filter = Ok filter_params ->
        dict_get name filter_params
        = last (omap (assignment name) (split "," filter))).
Proof.
  unfold parse_filter. split_and!.
  - split; [by intros [_ H]%parse_loop_Raise | apply parse_loop_malformed].
  - by intros e [-> _]%parse_loop_Raise.
  - intros filter_params name Hparse. rewrite (parse_loop_get _ _ _ name Hparse).
    by destruct (last _).
Qed.

Section Acceptance.

Variable lower : string -> string.
Variable ELSST_DATA : Store.
Variable SEARCH_INDEX : Index.

Local Abbreviation topic_result := (topic_result lower ELSST_DATA SEARCH_INDEX).

Lemma language_code_two_lowercase (filter : string) (filter_params : dict string) :
  parse_filter filter = Ok filter_params ->
  re_match_az2 (default "en" (dict_get "cf.search.language" filter_params)) = true
  <-> two_lowercase (default "en" (dict_get "cf.search.language" filter_params)).
Proof.
  intros Hparse.
  destruct (dict_get "cf.search.language" filter_params) as [lang|] eqn:Hlang.
  - destruct (parse_loop_Ok _ _ _ _ _ Hparse Hlang)
      as [Hinit | (part & key & val & _ & _ & _ & ->)]; [done|].
    apply re_match_az2_strip.
  - simpl. split; [intros _; by exists "e"%char, "n"%char | done].
Qed.

(** X9. [topic_result] answers 200 or 422 and nothing else.  It answers 200
    exactly when the filter parses, its [cf.search.labels] value has three
    characters or more, and its [cf.search.language] value, ["en"] when
    absent, is two letters a-z; the body is then the search for that term
    in that language. *)
Theorem topic_result_accepts (filter : string) :
  (status (topic_result filter) = 200 \/ status (topic_result filter) = 422)
  /\ forall body,
       topic_result filter = Success body
       <-> exists filter_params term,
             parse_filter filter = Ok filter_params
             /\ dict_get "cf.search.labels" filter_params = Some term
             /\ 3 <= String.length term
             /\ two_lowercase
                  (default "en" (dict_get "cf.search.language" filter_params))
             /\ body = search lower ELSST_DATA SEARCH_INDEX term
                         (default "en" (dict_get "cf.search.language" filter_params)).
Proof.
  split.
  - unfold Server.topic_result. destruct (String.length filter <? 19); [by right|].
    destruct (parse_filter filter) as [filter_params|e] eqn:Hparse.
    + destruct (dict_get "cf.search.labels" filter_params) as [term|]; [|by right].
      destruct (negb _ || _); [by right|]. destruct (negb _); [by right | by left].
    + apply parse_loop_Raise in Hparse as [-> _]. by right.
  - intros body. split.
    + unfold Server.topic_result. destruct (String.length filter <? 19); [done|].
      destruct (parse_filter filter) as [filter_params|e] eqn:Hparse; [|by destruct e].
      destruct (dict_get "cf.search.labels" filter_params) as [term|] eqn:Hterm; [|done].
      destruct (negb (truthy_id (Some term)) || (String.length term <? 3)) eqn:Hshort;
        [done|].
      destruct (re_match_az2 _) eqn:Hmatch; [|done]. cbn [negb]. intros [= <-].
      exists filter_params, term. split_and!; try done.
      * apply orb_false_iff in Hshort as [_ Hlen]. by apply Nat.ltb_ge in Hlen.
      * by apply (language_code_two_lowercase filter).
    + intros (filter_params & term & Hparse & Hterm & Hlen & Hlang & ->).
      unfold Server.topic_result.
      pose proof (accepted_length _ _ _ Hparse Hterm Hlen) as Hfilter.
      apply Nat.ltb_ge in Hfilter. rewrite Hfilter, Hparse, Hterm.
      assert ((String.length term <? 3) = false) as -> by (by apply Nat.ltb_ge).
      apply (language_code_two_lowercase filter) in Hlang; [|done]. rewrite Hlang.
      destruct term; [simpl in Hlen; lia | done].
Qed.

End Acceptance.

End FilterMore.

(** ** The current profile on a loaded store *)
Module ServiceMore.
Import Py PyFacts Loader LoaderFacts LoaderMore Server IndexFacts.

(** The store the current loader returns for a well-typed graph. *)
Definition loaded (nodes : list Node) : Store := store_from concept_of [] nodes.

(** Under every key of a loaded store sits the record of that identifier. *)
Lemma loaded_cid (nodes : list Node) (id : string) (data : Concept) :
  dict_get id (loaded nodes) = Some data -> cid data = id.
Proof.
  unfold loaded. rewrite store_from_get.
  destruct (last (nodes_with id nodes)) as [n|] eqn:Hlast; [|done].
  intros [= <-]. apply last_Some_elem_of in Hlast.
  by apply list_elem_of_filter in Hlast as [[_ ?] _].
Qed.

(** X10. Looking a topic up in the store loaded from a well-typed graph
    answers 404 exactly when no concept node carries the identifier;
    otherwise the one item answered has the requested identifier as its
    local identifier, and the preferred labels of the last concept node
    that carries it. *)
Theorem topic_single_after_load (nodes : list Node) (topic_id : string) :
  ((exists detail, topic_single (loaded nodes) topic_id = HTTPException 404 detail)
   <-> nodes_with topic_id nodes = [])
  /\ forall n,
       last (nodes_with topic_id nodes) = Some n ->
       topic_single (loaded nodes) topic_id
       = Success
           (VDict [ (VStr "@context",
                     VList [ VStr SKG_IF_CONTEXT_URL;
                             VDict [(VStr "@base", VStr SKG_IF_BASE_URL)] ]);
                    (VStr "@graph",
                     VList [ VDict [ (VStr "local_identifier", VStr topic_id);
                                     (VStr "entity_type", VStr "topic");
                                     (VStr "labels",
                                      labels_value
                                        (pref_map (default [] (node_pref n)))) ] ]) ]).
Proof.
  unfold topic_single, loaded. rewrite store_from_get. split.
  - destruct (last (nodes_with topic_id nodes)) as [n|] eqn:Hlast.
    + split; [by intros [detail H] | intros Hnil; by rewrite Hnil in Hlast].
    + apply last_None in Hlast. split; [done | intros _; by eexists].
  - intros n Hlast. rewrite Hlast. cbn [concept_of cid prefLabels].
    apply last_Some_elem_of in Hlast.
    by apply list_elem_of_filter in Hlast as [[_ ->] _].
Qed.

(** In a dictionary without repeated keys, an entry is what [get] finds. *)
Lemma dict_elem_get {V : Type} (key : string) (v : V) (d : dict V) :
  NoDup d.*1 -> (key, v) ∈ d -> dict_get key d = Some v.
Proof.
  induction d as [|[k old] d IH]; [by intros _ ?%elem_of_nil|].
  rewrite fmap_cons. cbn [fst]. intros [Hnew Hrest]%NoDup_cons Hin. cbn [dict_get].
  apply elem_of_cons in Hin as [[= <- <-] | Hin].
  - by rewrite String.eqb_refl.
  - destruct (String.eqb_spec k key) as [->|Hne]; [|by apply IH].
    destruct Hnew. apply list_elem_of_fmap. by exists (key, v).
Qed.

Lemma loaded_elem (nodes : list Node) (id : string) (data : Concept) :
  (id, data) ∈ loaded nodes -> dict_get id (loaded nodes) = Some data.
Proof. apply dict_elem_get. apply store_from_NoDup. constructor. Qed.

(** The labels the store keeps of a node in a language: the value of the
    last usable preferred pair of the language, a later pair replacing an
    earlier one, and the value of every usable alternative pair of the
    language. *)
Definition node_label (lang : string) (n : Node) (l : string) : Prop :=
  last (values_for lang (omap usable (default [] (node_pref n)))) = Some l
  \/ l ∈ values_for lang (omap usable (default [] (node_alt n))).

Lemma has_label_node (lang : string) (n : Node) (l : string) :
  IndexMore.has_label lang (concept_of n) l <-> node_label lang n l.
Proof.
  unfold IndexMore.has_label, node_label. cbn [concept_of prefLabels altLabels].
  assert (Hpref : dict_get lang (pref_map (default [] (node_pref n)))
                  = last (values_for lang (omap usable (default [] (node_pref n))))).
  { unfold pref_map. rewrite fold_set_get. by destruct (last _). }
  assert (Halt : dict_get lang (alt_map (default [] (node_alt n)))
                 = match values_for lang (omap usable (default [] (node_alt n))) with
                   | [] => None
                   | vals => Some vals
                   end).
  { unfold alt_map. rewrite fold_append_get. by destruct (values_for _ _). }
  split.
  - intros [Hin | (labels & Hin & Hl)].
    + left. rewrite <- Hpref. apply dict_elem_get; [apply pref_map_NoDup | done].
    + right. apply dict_elem_get in Hin; [|apply alt_map_NoDup].
      rewrite Halt in Hin.
      destruct (values_for lang (omap usable (default [] (node_alt n))))
        as [|val vals]; [done|].
      by injection Hin as <-.
  - intros [Hlast | Hin].
    + left. apply dict_get_Some_elem. by rewrite Hpref.
    + right. exists (values_for lang (omap usable (default [] (node_alt n)))).
      split; [|done]. apply dict_get_Some_elem. rewrite Halt.
      destruct (values_for lang (omap usable (default [] (node_alt n))));
        [by apply elem_of_nil in Hin | done].
Qed.

Section Results.

Variable lower : string -> string.

(** X11. Loading, indexing and searching composed: on the store loaded from
    a well-typed graph, the local identifiers of the result items are
    pairwise distinct and in ascending order, and an identifier is listed
    exactly when the last concept node that carries it has, in the language
    asked for, a label the store keeps whose lower-cased text contains the
    lower-cased term: the value of the last usable preferred pair of the
    language, or the value of any usable alternative pair of the language.
    A preferred pair that a later pair of its language replaces does not
    count. *)
Theorem search_after_load (nodes : list Node) (term lang : string) :
  exists ids results,
    search lower (loaded nodes) (build_search_index lower (loaded nodes)) term lang
    = envelope results
    /\ field "local_identifier" <$> results = (fun id => Some (VStr id)) <$> ids
    /\ NoDup ids
    /\ Sorted String.le ids
    /\ forall id,
         id ∈ ids
         <-> exists n l,
               last (nodes_with id nodes) = Some n
               /\ (last (values_for lang (omap usable (default [] (node_pref n))))
                   = Some l
                   \/ l ∈ values_for lang (omap usable (default [] (node_alt n))))
               /\ substring_of (lower term) (lower l).
Proof.
  destruct (search_results lower (loaded nodes) term lang)
    as (ids & results & Hbody & Hitems & Hnodup & Hsorted & Hids).
  exists ids, results. split_and!; [exact Hbody | | exact Hnodup | exact Hsorted |].
  - clear Hbody Hnodup Hsorted Hids.
    induction Hitems as [|id item ids results (data & Hdata & ->) _ IH]; [done|].
    rewrite !fmap_cons, IH. f_equal. simpl. by rewrite (loaded_cid nodes id data Hdata).
  - intros id. rewrite Hids, posting_list_build. split.
    + intros (label & Hin & Hsub).
      apply IndexMore.postings_elem in Hin as (data & l & Hin & Hl & ->).
      apply loaded_elem in Hin. unfold loaded in Hin. rewrite store_from_get in Hin.
      destruct (last (nodes_with id nodes)) as [n|]; [|done].
      injection Hin as <-. exists n, l. split_and!; [done | | done].
      by apply has_label_node.
    + intros (n & l & Hlast & Hl & Hsub). exists (lower l). split; [|done].
      apply IndexMore.postings_elem. exists (concept_of n), l.
      split_and!; [| by apply has_label_node | done].
      apply dict_get_Some_elem. unfold loaded. by rewrite store_from_get, Hlast.
Qed.

(** X12. With the empty store, which is what a failed load leaves, every
    accepted filter gets an empty result list with count 0 and every topic
    lookup gets a 404 naming the identifier. *)
Theorem empty_store_answers :
  (forall filter body,
     topic_result lower [] (build_search_index lower []) filter = Success body ->
     body = envelope [])
  /\ forall topic_id,
       topic_single [] topic_id
       = HTTPException 404 (VStr ("Topic with ID '" +:+ topic_id +:+ "' not found.")).
Proof.
  split; [|done].
  intros filter body (filter_params & term & _ & _ & _ & ->)%topic_result_Success.
  unfold search, matching. cbn [build_search_index fold_left dict_get default from_option id].
  unfold sorted. by rewrite elements_empty.
Qed.

End Results.

End ServiceMore.

(** ** The legacy profile: percent-encoding, matching and the graph *)
Module AppMore.
Import Py PyFacts App AppFacts.

(** *** Percent-encoding *)

(** A check over all 256 characters. *)
Definition all_ascii (p : ascii -> bool) : bool :=
  forallb (fun n => p (ascii_of_nat n)) (seq 0 256).

Lemma all_ascii_spec (p : ascii -> bool) : all_ascii p = true -> forall c, p c = true.
Proof.
  intros H c. unfold all_ascii in H. rewrite forallb_forall in H.
  rewrite <- (ascii_nat_embedding c). apply H. apply in_seq.
  pose proof (nat_ascii_bounded c). lia.
Qed.

(** No character's encoding starts another character's encoding. *)
Lemma codes_prefix_free (c d : ascii) :
  String.prefix (quote_char c) (quote_char d) = true -> c = d.
Proof.
  assert (Hall : all_ascii (fun c => all_ascii (fun d =>
            Ascii.eqb c d || negb (String.prefix (quote_char c) (quote_char d)))) = true)
    by (vm_compute; reflexivity).
  pose proof (all_ascii_spec _ (all_ascii_spec _ Hall c) d) as H. cbv beta in H.
  intros Hprefix. rewrite Hprefix, orb_false_r in H. by apply Ascii.eqb_eq.
Qed.

Lemma append_prefix (a b x y : string) :
  a +:+ x = b +:+ y -> String.prefix a b = true \/ String.prefix b a = true.
Proof.
  revert b. induction a as [|c a IH]; intros b.
  - intros _. left. apply prefix_split. by exists b.
  - destruct b as [|d b].
    + intros _. right. apply prefix_split. by exists (String c a).
    + intros H. cbn [String.append] in H. injection H as -> H.
      destruct (IH b H) as [Hp|Hp]; [left | right];
        apply prefix_split in Hp as [post ->]; apply prefix_split; by exists post.
Qed.

Lemma quote_char_inj (c d : ascii) (x y : string) :
  quote_char c +:+ x = quote_char d +:+ y -> c = d /\ x = y.
Proof.
  intros H. assert (c = d) as ->.
  { destruct (append_prefix _ _ _ _ H) as [Hp|Hp]; [|symmetry]; by apply codes_prefix_free. }
  split; [done|]. by apply (inj (String.app (quote_char d))) in H.
Qed.

Lemma quote_inj (s t : string) : quote s = quote t -> s = t.
Proof.
  revert t. induction s as [|c s IH]; intros [|d t]; cbn [quote]; try done.
  - intros H. apply (f_equal String.length) in H. rewrite length_append in H.
    destruct (quote_char_url d). simpl in H. lia.
  - intros H. apply (f_equal String.length) in H. rewrite length_append in H.
    destruct (quote_char_url c). simpl in H. lia.
  - intros [-> Hrest]%quote_char_inj. by rewrite (IH t Hrest).
Qed.

Lemma topic_id_field (data : Concept) :
  field "@id" (to_skgif_topic data)
  = Some (VStr (SKG_IF_BASE_URL +:+ quote (cid data))).
Proof.
  unfold to_skgif_topic, field.
  destruct (broader data) as [parent|]; [destruct (truthy_id (Some parent))|];
    destruct (altLabel data); by repeat (apply lookup_app_l).
Qed.

(** X13. Percent-encoding loses nothing: two identifiers have the same
    encoding only if they are the same, so two records get the same minted
    ["@id"] exactly when they have the same local identifier. *)
Theorem minted_ids_injective (a b : Concept) :
  (forall s t, quote s = quote t <-> s = t)
  /\ (field "@id" (to_skgif_topic a) = field "@id" (to_skgif_topic b)
      <-> cid a = cid b).
Proof.
  split.
  - intros s t. split; [apply quote_inj | by intros ->].
  - rewrite !topic_id_field. split; [|by intros ->].
    intros [= H]. by apply quote_inj.
Qed.

(** The characters [quote] leaves as they are. *)
Definition kept_char (c : ascii) : bool := always_safe c || Ascii.eqb c "/".

(** An encoded character starts with a percent sign and is at least three
    characters long. *)
Lemma escaped_shape (c : ascii) :
  kept_char c = false ->
  exists rest, quote_char c = String "%" rest /\ 2 <= String.length rest.
Proof.
  assert (Hall : all_ascii (fun c =>
            kept_char c
            || match quote_char c with
               | String p rest => Ascii.eqb p "%" && (2 <=? String.length rest)
               | EmptyString => false
               end) = true) by (vm_compute; reflexivity).
  pose proof (all_ascii_spec _ Hall c) as H. cbv beta in H.
  intros Hkept. rewrite Hkept in H. cbn [orb] in H.
  destruct (quote_char c) as [|p rest]; [done|].
  apply andb_true_iff in H as [->%Ascii.eqb_eq Hlen%Nat.leb_le]. by exists rest.
Qed.

(** [quote] writes URL characters only, at least one for each character
    read, and changes nothing exactly when every character is unreserved or
    a slash. *)
Lemma quote_shape (s : string) :
  all_chars url_char (quote s) = true
  /\ String.length s <= String.length (quote s)
  /\ (quote s = s <-> all_chars kept_char s = true).
Proof.
  split_and!.
  - apply quote_url.
  - apply quote_url.
  - induction s as [|c s IH]; [done|]. cbn [quote all_chars].
    destruct (kept_char c) eqn:Hkept.
    + rewrite (quote_char_safe c Hkept). simpl. rewrite <- IH.
      split; [intros [= H]; exact H | by intros ->].
    + split; [|done]. destruct (escaped_shape c Hkept) as (rest & -> & Hlen).
      simpl. intros [= <- H]. apply (f_equal String.length) in H.
      rewrite length_append in H. destruct (quote_url s) as [_ Hs]. lia.
Qed.

(** X14. For a local identifier of code points below 256: the ["@id"]
    minted for a record is the base URI followed by a suffix made of
    unreserved characters, slashes and percent signs only; the suffix has at
    least as many characters as the local identifier, and it is the local
    identifier itself exactly when every character of the identifier is
    unreserved or a slash. *)
Theorem minted_id_shape (data : Concept) :
  exists minted,
    field "@id" (to_skgif_topic data) = Some (VStr (SKG_IF_BASE_URL +:+ minted))
    /\ all_chars url_char minted = true
    /\ String.length (cid data) <= String.length minted
    /\ (minted = cid data <-> all_chars kept_char (cid data) = true).
Proof.
  exists (quote (cid data)). split; [apply topic_id_field | apply quote_shape].
Qed.

(** *** Matching and the expansion of the graph *)

Lemma reaches_end (store : Store) (k : nat) (a x : string) :
  reaches store k a x -> x <> "" /\ is_Some (dict_get x store).
Proof. induction 1 as [id concept Hne Hget | k id parent x concept _ _ _ _ IH]; eauto. Qed.

Section Expansion.

Variable lower : string -> string.
Variable store : Store.

Lemma matches_label (query : string) (data : Concept) :
  matches lower query data = true
  <-> substring_of query (lower (prefLabel data))
      \/ exists alt_label,
           alt_label ∈ altLabel data /\ substring_of query (lower alt_label).
Proof.
  unfold matches. rewrite orb_true_iff, contains_substring, existsb_exists.
  split; (intros [H | (alt_label & Hin & Hsub)]; [by left | right]);
    exists alt_label.
  - split; [by apply list_elem_of_In | by apply contains_substring].
  - split; [by apply list_elem_of_In | by apply contains_substring].
Qed.

Lemma matching_fold (query : string) (records : Store) (acc : gset string)
    (concept_id : string) :
  concept_id ∈ fold_left
      (fun matching_concept_ids '(concept_id, data) =>
         if matches lower query data then matching_concept_ids ∪ {[concept_id]}
         else matching_concept_ids) records acc
  <-> concept_id ∈ acc
      \/ exists data, (concept_id, data) ∈ records /\ matches lower query data = true.
Proof.
  revert acc. induction records as [|[k data] records IH]; intros acc; cbn [fold_left].
  - split; [by left | intros [H | (data & Hin%elem_of_nil & _)]; done].
  - rewrite IH. destruct (matches lower query data) eqn:Hm.
    + rewrite elem_of_union, elem_of_singleton. split.
      * intros [[H | ->] | (d & Hin & Hd)]; [by left | right | right].
        -- exists data. split; [left | done].
        -- exists d. split; [by right | done].
      * intros [H | (d & Hin & Hd)]; [by left; left|].
        apply elem_of_cons in Hin as [[= -> ->] | Hin]; [left; by right|].
        right. by exists d.
    + split.
      * intros [H | (d & Hin & Hd)]; [by left | right]. exists d. split; [by right | done].
      * intros [H | (d & Hin & Hd)]; [by left|].
        apply elem_of_cons in Hin as [[= -> ->] | Hin]; [congruence|].
        right. by exists d.
Qed.

(** X15. The matching pass of [autocomplete] collects exactly the keys of
    the records whose lower-cased preferred label, or one of whose
    lower-cased alternative labels, contains the query. *)
Theorem autocomplete_matching (query concept_id : string) :
  concept_id ∈ matching lower store query
  <-> exists data,
        (concept_id, data) ∈ store
        /\ (substring_of query (lower (prefLabel data))
            \/ exists alt_label,
                 alt_label ∈ altLabel data /\ substring_of query (lower alt_label)).
Proof.
  unfold matching. rewrite matching_fold. split.
  - intros [H | (data & Hin & Hm)]; [set_solver|].
    exists data. split; [done | by apply matches_label].
  - intros (data & Hin & Hm). right. exists data. split; [done | by apply matches_label].
Qed.

Lemma hierarchy_elem (start x : string) :
  x ∈ get_parent_hierarchy store start <-> exists k, k < 20 /\ reaches store k start x.
Proof.
  unfold get_parent_hierarchy. rewrite climb_elem. split.
  - intros [H | (id & k & [= <-] & Hk & Hr)]; [set_solver | by exists k].
  - intros (k & Hk & Hr). right. by exists start, k.
Qed.

Lemma related_fold (ids : list string) (acc : gset string) (x : string) :
  x ∈ fold_left
      (fun all_related_ids concept_id =>
         all_related_ids ∪ get_parent_hierarchy store concept_id) ids acc
  <-> x ∈ acc \/ exists m, m ∈ ids /\ x ∈ get_parent_hierarchy store m.
Proof.
  revert acc. induction ids as [|id ids IH]; intros acc; cbn [fold_left].
  - split; [by left | intros [H | (m & Hin%elem_of_nil & _)]; done].
  - rewrite IH, elem_of_union. split.
    + intros [[H | H] | (m & Hin & Hm)]; [by left | right | right].
      * exists id. split; [left | done].
      * exists m. split; [by right | done].
    + intros [H | (m & Hin & Hm)]; [by left; left|].
      apply elem_of_cons in Hin as [-> | Hin]; [left; by right|].
      right. by exists m.
Qed.

Lemma related_elem (matching_concept_ids : gset string) (x : string) :
  x ∈ related store matching_concept_ids
  <-> exists m k, m ∈ matching_concept_ids /\ k < 20 /\ reaches store k m x.
Proof.
  unfold related. rewrite related_fold. split.
  - intros [H | (m & Hin & Hm)]; [set_solver|].
    apply hierarchy_elem in Hm as (k & Hk & Hr). exists m, k.
    split; [by apply elem_of_elements | done].
  - intros (m & k & Hin & Hk & Hr). right. exists m.
    split; [by apply elem_of_elements | apply hierarchy_elem; by exists k].
Qed.

(** The topics of a list of ids all of which are keys of the store. *)
Lemma topics_of_keys (ids : list string) :
  (forall x, x ∈ ids -> is_Some (dict_get x store)) ->
  exists records,
    omap (fun concept_id => to_skgif_topic <$> get_concept_by_id store concept_id) ids
    = to_skgif_topic <$> records
    /\ Forall2 (fun id data => dict_get id store = Some data) ids records.
Proof.
  induction ids as [|id ids IH]; intros Hkeys.
  - exists []. split; [done | constructor].
  - destruct IH as (records & Heq & Hall); [intros x Hx; apply Hkeys; by right|].
    destruct (Hkeys id) as [data Hget]; [left|].
    exists (data :: records). split; [|by constructor].
    cbn [omap list_omap]. unfold get_concept_by_id at 1. rewrite Hget. cbn [fmap option_fmap option_map].
    rewrite fmap_cons. f_equal. exact Heq.
Qed.

Lemma expansion (q : string) :
  3 <= String.length q ->
  exists ids records,
    autocomplete lower store q
    = Success
        (VDict [ (VStr "@context",
                  VList [ VStr "https://w3id.org/skg-if/context/skg-if.json";
                          VDict [(VStr "@base", VStr SKG_IF_BASE_URL)] ]);
                 (VStr "@graph",
                  VList (get_data_source :: (to_skgif_topic <$> records))) ])
    /\ NoDup ids
    /\ Forall2 (fun id data => dict_get id store = Some data) ids records
    /\ forall x,
         x ∈ ids
         <-> exists m k,
               m ∈ matching lower store (lower q) /\ k < 20 /\ reaches store k m x.
Proof.
  intros Hlen. unfold autocomplete, graph_entities.
  apply Nat.ltb_ge in Hlen. rewrite Hlen.
  set (all_related_ids := related store (matching lower store (lower q))).
  destruct (topics_of_keys (elements all_related_ids)) as (records & -> & Hall).
  { intros x Hx%elem_of_elements. apply related_elem in Hx as (m & k & _ & _ & Hr).
    by apply reaches_end in Hr as [_ Hsome]. }
  exists (elements all_related_ids), records. split_and!; [done | apply NoDup_elements | done |].
  intros x. rewrite elem_of_elements. apply related_elem.
Qed.

(** X16. For every query it accepts, [autocomplete] answers with the
    DataSource node followed by one topic per related id, each id once and
    each topic rendered from the record the store holds for that id; the
    related ids are exactly the ids reached from a matching id by at most
    nineteen broader links through non-empty ids that are keys of the
    store, so every matching id that is not the empty string is among
    them. *)
Theorem autocomplete_expansion (q : string) :
  3 <= String.length q ->
  exists ids records,
    autocomplete lower store q
    = Success
        (VDict [ (VStr "@context",
                  VList [ VStr "https://w3id.org/skg-if/context/skg-if.json";
                          VDict [(VStr "@base", VStr SKG_IF_BASE_URL)] ]);
                 (VStr "@graph",
                  VList (get_data_source :: (to_skgif_topic <$> records))) ])
    /\ NoDup ids
    /\ Forall2 (fun id data => dict_get id store = Some data) ids records
    /\ (forall x,
          x ∈ ids
          <-> exists m k,
                m ∈ matching lower store (lower q) /\ k < 20 /\ reaches store k m x)
    /\ forall m, m ∈ matching lower store (lower q) -> m <> "" -> m ∈ ids.
Proof.
  intros Hlen. destruct (expansion q Hlen) as (ids & records & Hbody & Hnodup & Hall & Hids).
  exists ids, records. split_and!; [done | done | done | done |].
  intros m Hm Hne. apply Hids. exists m, 0. split_and!; [done | lia |].
  pose proof Hm as Hkey. unfold matching in Hkey. apply matching_fold in Hkey
    as [Hkey | (data & Hin & _)]; [set_solver|].
  assert (is_Some (dict_get m store)) as [concept Hget].
  { apply dict_get_is_Some. apply list_elem_of_fmap. by exists (m, data). }
  by econstructor.
Qed.

(** Every record is stored under its own identifier. *)
Definition keyed : Prop :=
  forall concept_id data, (concept_id, data) ∈ store -> cid data = concept_id.

Lemma keyed_ids (ids : list string) (records : list Concept) :
  keyed ->
  Forall2 (fun id data => dict_get id store = Some data) ids records ->
  cid <$> records = ids.
Proof.
  intros Hkeyed. induction 1 as [|id data ids records Hget _ IH]; [done|].
  rewrite fmap_cons, IH. f_equal. apply Hkeyed. by apply dict_get_Some_elem.
Qed.

Lemma topic_ids_NoDup (records : list Concept) :
  NoDup (cid <$> records) ->
  NoDup (field "@id" <$> (to_skgif_topic <$> records))
  /\ field "@id" get_data_source ∉ (field "@id" <$> (to_skgif_topic <$> records)).
Proof.
  intros Hnodup. rewrite <- list_fmap_compose. split.
  - induction records as [|data records IH]; [constructor|].
    rewrite fmap_cons in Hnodup. apply NoDup_cons in Hnodup as [Hnew Hrest].
    rewrite fmap_cons. apply NoDup_cons. split; [|by apply IH].
    intros (other & Heq & Hin)%list_elem_of_fmap. apply Hnew.
    apply list_elem_of_fmap. exists other. split; [|done].
    cbn [compose] in Heq. rewrite !topic_id_field in Heq.
    injection Heq as Heq. by apply quote_inj.
  - intros (data & Heq & _)%list_elem_of_fmap.
    cbn [compose] in Heq. rewrite topic_id_field in Heq. discriminate Heq.
Qed.

(** X17. When every record is stored under its own identifier, as the
    loader leaves them, the nodes of an answer of [autocomplete] all carry
    an ["@id"] and no two of them carry the same one: the DataSource's URN
    is no minted topic URI, and distinct related ids are minted distinct
    URIs. *)
Theorem autocomplete_ids_distinct (q : string) :
  keyed ->
  3 <= String.length q ->
  exists graph,
    autocomplete lower store q
    = Success
        (VDict [ (VStr "@context",
                  VList [ VStr "https://w3id.org/skg-if/context/skg-if.json";
                          VDict [(VStr "@base", VStr SKG_IF_BASE_URL)] ]);
                 (VStr "@graph", VList graph) ])
    /\ Forall (fun node => is_Some (field "@id" node)) graph
    /\ NoDup (field "@id" <$> graph).
Proof.
  intros Hkeyed Hlen.
  destruct (expansion q Hlen) as (ids & records & Hbody & Hnodup & Hall & _).
  exists (get_data_source :: (to_skgif_topic <$> records)).
  rewrite <- (keyed_ids ids records Hkeyed Hall) in Hnodup.
  destruct (topic_ids_NoDup records Hnodup) as [Htopics Hsource].
  split_and!; [done | |].
  - constructor; [by eexists|]. apply Forall_fmap, Forall_forall. intros data _.
    cbn [compose]. rewrite topic_id_field. by eexists.
  - rewrite fmap_cons. by apply NoDup_cons.
Qed.

End Expansion.

End AppMore.

(** ** More examples *)
Module MoreExamples.
Import Py PyFacts Loader.

(** An export with one concept and one concept scheme. *)
Definition poverty_node : value :=
  VDict [ (VStr "@id", VStr "http://purl.org/elsst/poverty");
          (VStr "@type", VList [VStr SKOS_CONCEPT]);
          (VStr SKOS_PREF_LABEL,
           VList [ VDict [ (VStr "@language", VStr "en");
                           (VStr "@value", VStr "Poverty") ] ]) ].

Definition scheme_node : value :=
  VDict [ (VStr "@id", VStr "http://purl.org/elsst/");
          (VStr "@type", VStr "http://www.w3.org/2004/02/skos/core#ConceptScheme") ].

Definition export : value :=
  VDict [ (VStr "@graph", VList [poverty_node; scheme_node]) ].

Definition poverty_record : value :=
  VDict [ (VStr "@id", VStr "http://purl.org/elsst/poverty");
          (VStr "prefLabels", VDict [(VStr "en", VStr "Poverty")]);
          (VStr "altLabels", VDict []);
          (VStr "broader", VNone) ].

Lemma loaded_ids_consistent_witness :
  (Server.load_elsst_data "elsst.jsonld" (Document export)).2
  = Ok (VDict [(VStr "http://purl.org/elsst/poverty", poverty_record)])
  /\ exists id,
       field "@id" poverty_record = Some id
       /\ key_eqb (VStr "http://purl.org/elsst/poverty") id = true
       /\ forall s, VStr "http://purl.org/elsst/poverty" = VStr s -> id = VStr s.
Proof.
  assert (Hload : (Server.load_elsst_data "elsst.jsonld" (Document export)).2
                  = Ok (VDict [(VStr "http://purl.org/elsst/poverty", poverty_record)]))
    by (vm_compute; reflexivity).
  split; [exact Hload|].
  apply (LoaderMore.loaded_ids_consistent "elsst.jsonld" (Document export) _
           (or_introl Hload)).
  left.
Defined.

Lemma loader_skips_foreign_nodes_witness :
  LoaderFacts.passed_over scheme_node
  /\ Server.load_elsst_data "elsst.jsonld"
       (Document (VDict [(VStr "@graph", VList ([poverty_node] ++ scheme_node :: []))]))
     = Server.load_elsst_data "elsst.jsonld"
         (Document (VDict [(VStr "@graph", VList ([poverty_node] ++ []))]))
  /\ App.load_elsst_data "elsst.jsonld"
       (Document (VDict [(VStr "@graph", VList ([poverty_node] ++ scheme_node :: []))]))
     = App.load_elsst_data "elsst.jsonld"
         (Document (VDict [(VStr "@graph", VList ([poverty_node] ++ []))])).
Proof.
  assert (Hforeign : LoaderFacts.passed_over scheme_node) by (right; discriminate).
  split; [exact Hforeign|].
  exact (LoaderMore.loader_skips_foreign_nodes "elsst.jsonld" [poverty_node] []
           scheme_node Hforeign).
Defined.

Lemma search_unknown_language_witness :
  (forall concept_id data l,
     (concept_id, data) ∈ Examples.ELSST_DATA -> ~ IndexMore.has_label "fr" data l)
  /\ Server.search lower_ascii Examples.ELSST_DATA
       (Server.build_search_index lower_ascii Examples.ELSST_DATA) "pov" "fr"
     = IndexFacts.envelope [].
Proof.
  assert (Hnone : forall concept_id data l,
            (concept_id, data) ∈ Examples.ELSST_DATA -> ~ IndexMore.has_label "fr" data l).
  { intros concept_id data l Hin [Hpref | (labels & Halt & _)];
      unfold Examples.ELSST_DATA in Hin;
      repeat (apply elem_of_cons in Hin as [[= -> ->] | Hin]);
      try (by apply elem_of_nil in Hin); cbn in Hpref || cbn in Halt;
      repeat match goal with
             | H : _ ∈ _ :: _ |- _ => apply elem_of_cons in H as [[=] | H]
             | H : _ ∈ [] |- _ => by apply elem_of_nil in H
             end. }
  split; [exact Hnone|].
  exact (IndexMore.search_unknown_language lower_ascii Examples.ELSST_DATA "pov" "fr" Hnone).
Defined.

Lemma autocomplete_expansion_witness :
  3 <= String.length "Unemp"
  /\ exists ids records,
       App.autocomplete lower_ascii Examples.hierarchy_store "Unemp"
       = Success
           (VDict [ (VStr "@context",
                     VList [ VStr "https://w3id.org/skg-if/context/skg-if.json";
                             VDict [(VStr "@base", VStr App.SKG_IF_BASE_URL)] ]);
                    (VStr "@graph",
                     VList (App.get_data_source :: (App.to_skgif_topic <$> records))) ])
       /\ NoDup ids
       /\ Forall2 (fun id data => dict_get id Examples.hierarchy_store = Some data)
            ids records
       /\ (forall x,
             x ∈ ids
             <-> exists m k,
                   m ∈ App.matching lower_ascii Examples.hierarchy_store
                         (lower_ascii "Unemp")
                   /\ k < 20 /\ AppFacts.reaches Examples.hierarchy_store k m x)
       /\ forall m, m ∈ App.matching lower_ascii Examples.hierarchy_store
                          (lower_ascii "Unemp") ->
                    m <> "" -> m ∈ ids.
Proof.
  assert (Hlen : 3 <= String.length "Unemp") by (simpl; lia).
  split; [exact Hlen|].
  exact (AppMore.autocomplete_expansion lower_ascii Examples.hierarchy_store "Unemp" Hlen).
Defined.

Lemma autocomplete_ids_distinct_witness :
  AppMore.keyed Examples.hierarchy_store
  /\ 3 <= String.length "Unemp"
  /\ exists graph,
       App.autocomplete lower_ascii Examples.hierarchy_store "Unemp"
       = Success
           (VDict [ (VStr "@context",
                     VList [ VStr "https://w3id.org/skg-if/context/skg-if.json";
                             VDict [(VStr "@base", VStr App.SKG_IF_BASE_URL)] ]);
                    (VStr "@graph", VList graph) ])
       /\ Forall (fun node => is_Some (field "@id" node)) graph
       /\ NoDup (field "@id" <$> graph).
Proof.
  assert (Hkeyed : AppMore.keyed Examples.hierarchy_store).
  { intros concept_id data Hin. unfold Examples.hierarchy_store in Hin.
    repeat (apply elem_of_cons in Hin as [[= -> ->] | Hin]); try reflexivity.
    by apply elem_of_nil in Hin. }
  assert (Hlen : 3 <= String.length "Unemp") by (simpl; lia).
  split; [exact Hkeyed|]. split; [exact Hlen|].
  exact (AppMore.autocomplete_ids_distinct lower_ascii Examples.hierarchy_store "Unemp"
           Hkeyed Hlen).
Defined.

End MoreExamples.
